(** * Verification of the datatable core: [DataTable::rbind] and the [Cut] column

    The development embeds two source files of the repository:

    - [c/datatable_rbind.cc]: the method [DataTable::rbind], which appends
      a list of tables to the receiver in place (module [Rbind]);
    - the header of the binning column, [Cut_ColumnImpl], with its factory
      [make], the coefficient derivation [set_cut_coeffs] and the
      per-element evaluation [get_element] (module [Cut]).

    Tables live in a store indexed by addresses, because [rbind] receives
    its sources as pointers and mutates the receiver through [this].
    Doubles are IEEE binary64 numbers of the Standard Library's [SpecFloat]. *)

From Stdlib Require Import ZArith Lia SpecFloat.
From stdpp Require Import base option list gmap.

(* ===================================================================== *)
(** ** Part I: [DataTable::rbind]                                          *)
(* ===================================================================== *)

Module Rbind.

Local Open Scope Z_scope.

(** Modelled from the spec: the enumeration of storage types, declared
    in a header that is not part of the sources.  [datatable_rbind.cc]
    names [ST_VOID] only; the others are the element kinds of the data
    model. *)
Inductive SType : Type :=
  | ST_VOID | ST_BOOL | ST_INT32 | ST_INT64 | ST_FLOAT32 | ST_FLOAT64 | ST_STRING.

#[global] Instance SType_eq_dec : EqDecision SType.
Proof. solve_decision. Defined.

(** Modelled from the spec: the class [Column] of [column.h], which is
    not part of the sources.  A column is its storage type and its rows,
    [None] being NA; its row count is the length of [data].  Columns are
    values: a structural operation replaces a column, it does not change
    one. *)
Record Column : Type := mkColumn {
  stype : SType;
  data : list (option Z)
}.

#[global] Instance Column_eq_dec : EqDecision Column.
Proof. solve_decision. Defined.

(** Modelled from the spec: the constructor [Column(ST_VOID, n)] of
    [column.h], which is not part of the sources.  It builds the all-NA
    placeholder column of the void type with [n] rows. *)
Definition Column_void (n : Z) : Column :=
  mkColumn ST_VOID (replicate (Z.to_nat n) None).

(** Row [r] of a column is NA when it holds no value. *)
Definition is_NA (c : Column) (r : nat) : Prop := data c !! r = Some None.

(** Modelled from the spec: the class [RowIndex] of [rowindex.h], which
    is not part of the sources: an arithmetic slice or an explicit array
    of positions. *)
Inductive RowIndex : Type :=
  | RI_slice (start step : Z) (count : nat)
  | RI_array (ind : list Z).

#[global] Instance RowIndex_eq_dec : EqDecision RowIndex.
Proof. solve_decision. Defined.

Definition RowIndex_length (ri : RowIndex) : nat :=
  match ri with
  | RI_slice _ _ count => count
  | RI_array ind => length ind
  end.

(** The table object, with the four members [DataTable::rbind] uses.
    [columns] is the [Column**] array, a slot holding [None] for a null
    pointer; [rowindex] is [None] for the null pointer. *)
Record DataTable : Type := mkDataTable {
  columns : list (option Column);
  ncols : Z;
  nrows : Z;
  rowindex : option RowIndex
}.

#[global] Instance DataTable_eq_dec : EqDecision DataTable.
Proof. solve_decision. Defined.

(** Addresses of table objects, and the store they live in. *)
Definition loc : Type := positive.

(** Row count of the table at address [p] (0 when nothing lives there). *)
Definition table_nrows (h : gmap loc DataTable) (p : loc) : Z :=
  from_option nrows 0 (h !! p).

Definition sum_Z (l : list Z) : Z := foldr Z.add 0 l.

Definition int64_ok (z : Z) : bool := (- 2 ^ 63 <=? z) && (z <? 2 ^ 63).

(** [dtrealloc(columns, Column*, ncols__ + 1)] followed by the loop that
    nulls the slots from [ncols] to [ncols__]: the first [ncols] slots
    are kept, the array has [ncols__ + 1] slots.  Allocation is taken to
    succeed. *)
Definition grow_columns (cs : list (option Column)) (nc nc__ : Z)
  : list (option Column) :=
  resize (Z.to_nat (nc__ + 1)) None (take (Z.to_nat nc) cs).

Definition set_columns (dt : DataTable) (cs : list (option Column)) : DataTable :=
  mkDataTable cs (ncols dt) (nrows dt) (rowindex dt).

(** [columns[i] = ret] *)
Definition store_column (dt : DataTable) (i : nat) (ret : Column) : DataTable :=
  set_columns dt (<[i := Some ret]> (columns dt)).

(** [ncols = ncols__; nrows = nrows__] *)
Definition commit (dt : DataTable) (nc__ nr__ : Z) : DataTable :=
  mkDataTable (columns dt) nc__ nr__ (rowindex dt).

Section Method.

(** The collaborators of [rbind] that [column.h] and [datatable.h] declare
    and whose bodies are not part of the sources.  A result [None] of
    [Column_extract] or [Column_rbind] is the null pointer they return on
    failure. *)
Variable Column_extract : Column -> RowIndex -> option Column.
Variable Column_rbind : Column -> list Column -> option Column.
Variable reify : DataTable -> DataTable.

(** The outer [option] of the functions below is [None] when the C++
    execution has no defined meaning: a dangling table pointer, a read
    outside [cols] or outside a column array, a call through a null
    [Column*], a failed [assert], or signed overflow of the row count. *)

(** The loop [nrows__ += dts[i]->nrows]. *)
Fixpoint sum_nrows (h : gmap loc DataTable) (acc : Z) (dts : list loc)
  : option Z :=
  match dts with
  | [] => Some acc
  | p :: rest =>
      dt ← h !! p;
      let acc' := acc + nrows dt in
      if int64_ok acc' then sum_nrows h acc' rest else None
  end.

(** The body of the inner loop: the contribution [cols0[j]] of source
    table [dts[j]] to result column [i]. *)
Definition contribution (h : gmap loc DataTable) (cols : list (list Z))
    (i j : nat) (p : loc) : option (option Column) :=
  c ← (cols !! i) ≫= (.!! j);
  dtj ← h !! p;
  if c <? 0 then Some (Some (Column_void (nrows dtj)))
  else
    col ← mjoin (columns dtj !! Z.to_nat c);
    match rowindex dtj with
    | Some ri => Some (Column_extract col ri)
    | None => Some (Some col)
    end.

(** The inner loop over [j], with its early [return NULL]: the inner
    [None] says that some [cols0[j]] was null. *)
Fixpoint build_cols0 (h : gmap loc DataTable) (cols : list (list Z))
    (i j : nat) (dts : list loc) : option (option (list Column)) :=
  match dts with
  | [] => Some (Some [])
  | p :: rest =>
      oc ← contribution h cols i j p;
      match oc with
      | None => Some None
      | Some c =>
          r ← build_cols0 h cols i (S j) rest;
          Some (option_map (cons c) r)
      end
  end.

(** The pointer [col0]: the receiver's own column [i], or a fresh void
    column of the receiver's row count; [None] when [columns[i]] cannot
    be followed. *)
Definition base_column (dt : DataTable) (i : nat) : option Column :=
  if Z.of_nat i <? ncols dt
  then mjoin (columns dt !! i)
  else Some (Column_void (nrows dt)).

(** One iteration of the outer loop, for result column [i].  The inner
    [None] is the early [return NULL]; the store is then the one the
    iteration started from. *)
Definition rbind_column (this : loc) (dts : list loc) (cols : list (list Z))
    (h : gmap loc DataTable) (i : nat) : option (option (gmap loc DataTable)) :=
  dt ← h !! this;
  let col0 := base_column dt i in
  ocs ← build_cols0 h cols i 0 dts;
  match ocs with
  | None => Some None
  | Some cs =>
      c0 ← col0;
      match Column_rbind c0 cs with
      | None => Some None
      | Some ret => Some (Some (<[this := store_column dt i ret]> h))
      end
  end.

(** The outer loop over the result columns [ixs].  The boolean is [false]
    when an iteration returned [NULL]. *)
Fixpoint rbind_loop (this : loc) (dts : list loc) (cols : list (list Z))
    (h : gmap loc DataTable) (ixs : list nat)
  : option (gmap loc DataTable * bool) :=
  match ixs with
  | [] => Some (h, true)
  | i :: rest =>
      r ← rbind_column this dts cols h i;
      match r with
      | None => Some (h, false)
      | Some h' => rbind_loop this dts cols h' rest
      end
  end.

(** The receiver after [reify()], the reallocation of its column array
    and the nulling of the new slots, written back to the store. *)
Definition prepare (h : gmap loc DataTable) (this : loc) (dt0 : DataTable)
    (ncols__ : Z) : gmap loc DataTable :=
  let dt1 := reify dt0 in
  <[this := set_columns dt1 (grow_columns (columns dt1) (ncols dt1) ncols__)]> h.

(** [DataTable::rbind(dts, cols, ndts, ncols__)] on the receiver at
    address [this].  [dts] is the array of [ndts] table pointers.  The
    result is the final store and the returned pointer: [Some this] on
    success, [None] for [NULL]. *)
Definition DataTable_rbind (h : gmap loc DataTable) (this : loc)
    (dts : list loc) (cols : list (list Z)) (ncols__ : Z)
  : option (gmap loc DataTable * option loc) :=
  dt0 ← h !! this;
  if negb (ncols dt0 <=? ncols__) then None
  else
    let h1 := prepare h this dt0 ncols__ in
    nrows__ ← sum_nrows h1 (table_nrows h1 this) dts;
    r ← rbind_loop this dts cols h1 (seq 0 (Z.to_nat ncols__));
    match r with
    | (h2, false) => Some (h2, None)
    | (h2, true) =>
        dt ← h2 !! this;
        Some (<[this := commit dt ncols__ nrows__]> h2, Some this)
    end.

End Method.

(** *** The data-model invariant of a table

    The row count of a table is the row count of its row index when it
    has one, and the common row count of its columns otherwise. *)
Definition wf_table (dt : DataTable) : Prop :=
  0 <= nrows dt /\
  match rowindex dt with
  | Some ri => RowIndex_length ri = Z.to_nat (nrows dt)
  | None => forall (i : nat) (c : Column),
      columns dt !! i = Some (Some c) -> length (data c) = Z.to_nat (nrows dt)
  end.

(** *** Well-formed arguments

    The entry [cols[i][j]] exists, the source at [p] is a live table and,
    when the entry is not negative, it names a non-null column of that
    source. *)
Definition entry_ok (h : gmap loc DataTable) (cols : list (list Z))
    (i j : nat) (p : loc) : Prop :=
  exists x dtp,
    (cols !! i) ≫= (.!! j) = Some x /\ h !! p = Some dtp /\
    (0 <= x -> exists c, columns dtp !! Z.to_nat x = Some (Some c)).

(** *** Reference collaborators

    The theorems on [DataTable_rbind] hold for any collaborators that meet
    the contracts they assume.  The three definitions below follow the
    prose of the design document; they show the contracts can be met and
    are used to run the method on concrete tables. *)

(** Modelled from the spec: the physical positions a row index selects,
    in order. *)
Definition RowIndex_positions (ri : RowIndex) : list Z :=
  match ri with
  | RI_slice start step count =>
      map (fun k : nat => start + Z.of_nat k * step) (seq 0 count)
  | RI_array ind => ind
  end.

(** Modelled from the spec: [Column::extract(rowindex)] of [column.h],
    which is not part of the sources.  It returns a new column with the
    given row index applied on top of the receiver; a negative position is
    the NA-row marker. *)
Definition Column_extract_spec (c : Column) (ri : RowIndex) : option Column :=
  Some (mkColumn (stype c)
          (map (fun p : Z => if p <? 0 then None else mjoin (data c !! Z.to_nat p))
               (RowIndex_positions ri))).

(** Modelled from the spec: the promotion rank of the storage types,
    void < bool < int32 < int64 < float32 < float64 < string. *)
Definition promotion_rank (st : SType) : nat :=
  match st with
  | ST_VOID => 0 | ST_BOOL => 1 | ST_INT32 => 2 | ST_INT64 => 3
  | ST_FLOAT32 => 4 | ST_FLOAT64 => 5 | ST_STRING => 6
  end%nat.

Definition promote (s t : SType) : SType :=
  if (promotion_rank s <? promotion_rank t)%nat then t else s.

(** Modelled from the spec: inputs that no promotion rule reconciles.
    Which inputs those are is left to the implementation; here it is a
    string column next to a column of a numeric or boolean type. *)
Definition fusable (sts : list SType) : bool :=
  let live := filter (fun st => st <> ST_VOID) sts in
  forallb (fun st => bool_decide (st = ST_STRING)) live
  || forallb (fun st => bool_decide (st <> ST_STRING)) live.

(** Modelled from the spec: [Column::rbind(columns)] of [column.h], which
    is not part of the sources.  The result has the receiver's rows
    followed by the rows of each block in order, and the promotion-rank
    maximum of the storage types; it is absent when the inputs cannot be
    fused. *)
Definition Column_rbind_spec (c : Column) (cs : list Column) : option Column :=
  if fusable (stype c :: map stype cs)
  then Some (mkColumn (foldr promote ST_VOID (stype c :: map stype cs))
                      (data c ++ concat (map data cs)))
  else None.

(** Modelled from the spec: [DataTable::reify()] of [datatable.h], which
    is not part of the sources.  Every column gets the table's row index
    applied, and the table-level row index is cleared; [nrows] and
    [ncols] are unchanged. *)
Definition reify_spec (dt : DataTable) : DataTable :=
  match rowindex dt with
  | None => dt
  | Some ri =>
      mkDataTable (map (fun oc => oc ≫= fun c => Column_extract_spec c ri) (columns dt))
                  (ncols dt) (nrows dt) None
  end.

(** *** Concrete tables *)

Definition int_column (l : list Z) : Column := mkColumn ST_INT32 (map Some l).
Definition str_column (l : list Z) : Column := mkColumn ST_STRING (map Some l).

Definition table_of (cs : list Column) (nr : Z) : DataTable :=
  mkDataTable (map Some cs ++ [None]) (Z.of_nat (length cs)) nr None.

(** Table A has an integer and a string column of two rows; table B has
    two integer columns of one row. *)
Definition table_A : DataTable :=
  table_of [int_column [10; 20]; str_column [1; 2]] 2.
Definition table_B : DataTable :=
  table_of [int_column [30]; int_column [40]] 1.

Definition store_AB : gmap loc DataTable :=
  <[1%positive := table_A]> (<[2%positive := table_B]> ∅).

(** Table V is a view: the first two rows of an integer and a string
    column of three rows. *)
Definition table_V : DataTable :=
  mkDataTable [Some (int_column [10; 20; 30]); Some (str_column [1; 2; 3]); None]
              2 2 (Some (RI_slice 0 1 2)).

Definition store_VB : gmap loc DataTable :=
  <[1%positive := table_V]> (<[2%positive := table_B]> ∅).

(** Two column maps: with [cols_fill], [A.rbind([B], cols_fill, 1, 3)]
    keeps column 0 and adds two columns B has no field for; with
    [cols_clash], [A.rbind([B], cols_clash, 1, 2)] maps B's integer
    column 1 under A's string column 1. *)
Definition cols_fill : list (list Z) := [[0]; [-1]; [-1]].
Definition cols_clash : list (list Z) := [[0]; [1]].

(** The method with the reference collaborators. *)
Definition run_rbind := DataTable_rbind Column_extract_spec Column_rbind_spec reify_spec.

(** The store a call ended in. *)
Definition final_store (o : option (gmap loc DataTable * option loc))
  : gmap loc DataTable :=
  from_option fst ∅ o.

End Rbind.

(* ===================================================================== *)
(** ** Part II: the [Cut] virtual column                                   *)
(* ===================================================================== *)

Module Cut.

Local Open Scope Z_scope.

(** *** Numbers *)

(** The operations on [double] that the header uses.  The code is
    written once over this interface; [binary64] below is the arithmetic
    the program runs on. *)
Class DoubleOps (D : Type) : Type := {
  of_Z : Z -> D;               (* conversion of an integer value *)
  half : D;                    (* the literal [0.5] *)
  float_epsilon : D;           (* [std::numeric_limits<float>::epsilon()] *)
  add : D -> D -> D;
  sub : D -> D -> D;
  mul : D -> D -> D;
  div : D -> D -> D;
  opp : D -> D;
  eqb : D -> D -> bool;        (* [==] *)
  isinf : D -> bool;
  trunc : D -> option Z        (* integral part, toward zero; [None] for
                                  NaN and the infinities *)
}.

(** IEEE 754 binary64, round to nearest even. *)
Definition prec : Z := 53.
Definition emax : Z := 1024.

Definition SF_of_Z (z : Z) : spec_float := binary_normalize prec emax z 0 false.

Definition SF_pow2 (e : Z) : spec_float := binary_normalize prec emax 1 e false.

Definition SF_isinf (x : spec_float) : bool :=
  match x with S754_infinity _ => true | _ => false end.

(** Zeros and finite numbers, as opposed to NaN and the infinities. *)
Definition SF_is_finite (x : spec_float) : bool :=
  match x with S754_zero _ | S754_finite _ _ _ => true | _ => false end.

(** The magnitude [m * 2^e] cut to an integer, and whether a fractional
    part was dropped. *)
Definition magnitude (m : positive) (e : Z) : Z * bool :=
  if 0 <=? e then (Z.pos m * 2 ^ e, false)
  else (Z.pos m / 2 ^ (- e), negb (Z.pos m mod 2 ^ (- e) =? 0)).

(** Conversion to an integer as [static_cast] does it: toward zero. *)
Definition SF_trunc (x : spec_float) : option Z :=
  match x with
  | S754_zero _ => Some 0
  | S754_finite s m e => Some (cond_Zopp s (fst (magnitude m e)))
  | _ => None
  end.

(** The floor: toward minus infinity. *)
Definition SF_floor (x : spec_float) : option Z :=
  match x with
  | S754_zero _ => Some 0
  | S754_finite s m e =>
      let '(q, frac) := magnitude m e in
      Some (if s then (if frac then - q - 1 else - q) else q)
  | _ => None
  end.

#[global] Instance binary64 : DoubleOps spec_float := {
  of_Z := SF_of_Z;
  half := SF_pow2 (-1);
  float_epsilon := SF_pow2 (-23);
  add := SFadd prec emax;
  sub := SFsub prec emax;
  mul := SFmul prec emax;
  div := SFdiv prec emax;
  opp := SFopp;
  eqb := SFeqb;
  isinf := SF_isinf;
  trunc := SF_trunc
}.

(** Whether a finite number has a fractional part. *)
Definition SF_frac (x : spec_float) : bool :=
  match x with
  | S754_finite _ m e => snd (magnitude m e)
  | _ => false
  end.

(** [x] is the finite number [c * 2^t] with sign [s], its mantissa
    being [c] shifted to the left. *)
Definition dyadic (x : spec_float) (s : bool) (c t : Z) : Prop :=
  exists (m : positive) (e : Z),
    x = S754_finite s m e /\ e <= t /\ Z.pos m = c * 2 ^ (t - e).

(** [int32_t] *)
Definition in_int32 (z : Z) : bool := (- 2 ^ 31 <=? z) && (z <? 2 ^ 31).

(** [static_cast<int32_t>(n)] for a [size_t] value: reduction modulo
    [2^32] into the signed range. *)
Definition int32_of_size (n : N) : Z :=
  (Z.of_N n + 2 ^ 31) mod 2 ^ 32 - 2 ^ 31.

(** A 32-bit result that may have no defined value. *)
Definition int32_checked (z : Z) : option Z :=
  if in_int32 z then Some z else None.

(** *** Columns *)

(** Modelled from the spec: the enumeration [SType] of [stype.h], which
    is not part of the sources.  The header names [INT32] and
    [FLOAT64]. *)
Inductive SType : Type :=
  | VOID | BOOL | INT8 | INT16 | INT32 | INT64 | FLOAT32 | FLOAT64 | STR32 | STR64.

#[global] Instance Cut_SType_eq_dec : EqDecision SType.
Proof. solve_decision. Defined.

(** The two statistics [make] asks for. *)
Inductive Stat : Type := Min | Max.

(** Modelled from the spec: the class [Column] of [column.h], which is
    not part of the sources, as [make] and [get_element] use it.  A
    column with elements of type [T] is its row count, its storage type,
    the element reader [get_element(i, &value)] returning the validity
    flag and the value it wrote, and the statistics provider
    [stats()->get_stat(kind, &value)]. *)
Record Column (T : Type) : Type := mkColumn {
  nrows : N;
  stype : SType;
  element : N -> bool * T;
  get_stat : Stat -> bool * T
}.

Arguments mkColumn {T} _ _ _ _.
Arguments nrows {T} _.
Arguments stype {T} _.
Arguments element {T} _ _.
Arguments get_stat {T} _ _.

(** What [make<T>] needs of its element type [T]: the test [_isinf],
    declared in [models/utils.h], and the conversion
    [static_cast<double>]. *)
Class Elem (D T : Type) : Type := {
  _isinf : T -> bool;
  to_double : T -> D
}.

(** Integer element types: they have no infinite value. *)
Definition Elem_int {D : Type} `{DoubleOps D} : Elem D Z := {|
  _isinf := fun _ => false;
  to_double := of_Z
|}.

(** Floating element types, here already widened to [D]. *)
Definition Elem_float {D : Type} `{DoubleOps D} : Elem D D := {|
  _isinf := isinf;
  to_double := fun x => x
|}.

(** Modelled from the spec: [Column::cast_inplace(SType::FLOAT64)] of
    [column.h], which is not part of the sources.  It widens every
    element to a double and keeps the row count. *)
Definition cast_inplace {D T : Type} `{Elem D T} (col : Column T) (st : SType)
  : Column D :=
  mkColumn (nrows col) st
           (fun i => let '(valid, v) := element col i in (valid, to_double v))
           (fun k => let '(valid, v) := get_stat col k in (valid, to_double v)).

(** The two implementations [make] can return.  [Cut_ColumnImpl] passes
    [col.nrows()] and [SType::INT32] to its base class.  The field
    [shift_] is an [int32_t]; it is [None] when the [int] arithmetic that
    computed it overflowed, which leaves it without a defined value. *)
Inductive ColumnImpl (D : Type) : Type :=
  | ConstNa_ColumnImpl (n : N) (st : SType)
  | Cut_ColumnImpl (col_ : Column D) (a_ b_ : D) (shift_ : option Z).

Arguments ConstNa_ColumnImpl {D} _ _.
Arguments Cut_ColumnImpl {D} _ _ _ _.

Definition impl_nrows {D : Type} (c : ColumnImpl D) : N :=
  match c with
  | ConstNa_ColumnImpl n _ => n
  | Cut_ColumnImpl col_ _ _ _ => nrows col_
  end.

Definition impl_stype {D : Type} (c : ColumnImpl D) : SType :=
  match c with
  | ConstNa_ColumnImpl _ st => st
  | Cut_ColumnImpl _ _ _ _ => INT32
  end.

Section Code.

Context {D : Type} `{DoubleOps D}.

Definition bool_to_Z (b : bool) : Z := if b then 1 else 0.

(** [Cut_ColumnImpl::set_cut_coeffs]: the triple [(a, b, shift)].  The
    shift [static_cast<int32_t>(nbins) - 1] is computed in [int]: the
    conversion reduces [nbins] modulo [2^32], and the subtraction has no
    defined result when it leaves the range of [int]. *)
Definition set_cut_coeffs (min max : D) (nbins : N) (right_closed : bool)
  : D * D * option Z :=
  let epsilon := float_epsilon in
  if eqb min max then
    (of_Z 0,
     mul (mul half (of_Z (Z.of_N nbins)))
         (add (of_Z 1) (mul (of_Z (1 - 2 * bool_to_Z right_closed)) epsilon)),
     Some 0)
  else
    let a := div (mul (sub (of_Z 1) epsilon) (of_Z (Z.of_N nbins))) (sub max min) in
    let b := mul (opp a) min in
    if negb right_closed
    then (a, add b (mul (sub epsilon (of_Z 1)) (of_Z (Z.of_N nbins))),
          int32_checked (int32_of_size nbins - 1))
    else (a, b, Some 0).

(** [Cut_ColumnImpl::make<T>] *)
Definition make {T : Type} `{Elem D T} (col : Column T) (nbins : N)
    (right_closed : bool) : ColumnImpl D :=
  let '(min_valid, tmin) := get_stat col Min in
  let '(max_valid, tmax) := get_stat col Max in
  if negb min_valid || negb max_valid || _isinf tmin || _isinf tmax
     || (nbins =? 0)%N
  then ConstNa_ColumnImpl (nrows col) INT32
  else
    let min := to_double tmin in
    let max := to_double tmax in
    let col' := cast_inplace col FLOAT64 in
    let '(a, b, shift) := set_cut_coeffs min max nbins right_closed in
    Cut_ColumnImpl col' a b shift.

(** [static_cast<int32_t>(x) + shift]: the conversion goes toward zero;
    there is no defined result when the integral part or the sum leaves
    the range of [int32_t]. *)
Definition bin_id (x : D) (shift : Z) : option Z :=
  t ← trunc x;
  t32 ← int32_checked t;
  int32_checked (t32 + shift).

(** Modelled from the spec: [ConstNa_ColumnImpl::get_element] of
    [column/const.h], which is not part of the sources.  Every element of
    the constant-NA column is NA, and nothing is written to [*out]. *)
Definition ConstNa_get_element (i : N) : option Z * bool := (None, false).

(** [Cut_ColumnImpl::get_element(i, out)]: the value written to [*out]
    and the returned flag.  The value is computed from whatever the child
    wrote, whether valid or not; the product and the sum round
    separately.  With a shift that has no defined value the sum has
    none. *)
Definition Cut_get_element (col_ : Column D) (a_ b_ : D) (shift_ : option Z)
    (i : N) : option Z * bool :=
  let '(is_valid, value) := element col_ i in
  (shift_ ≫= bin_id (add (mul a_ value) b_), is_valid).

(** The virtual call [get_element(i, out)] on an implementation. *)
Definition get_element (c : ColumnImpl D) (i : N) : option Z * bool :=
  match c with
  | ConstNa_ColumnImpl _ _ => ConstNa_get_element i
  | Cut_ColumnImpl col_ a_ b_ shift_ => Cut_get_element col_ a_ b_ shift_ i
  end.

(** [Cut_ColumnImpl::clone()]: a new implementation over a copy of the
    child handle, with the same coefficients. *)
Definition Cut_clone (col_ : Column D) (a_ b_ : D) (shift_ : option Z)
  : ColumnImpl D :=
  Cut_ColumnImpl col_ a_ b_ shift_.

(** [Cut_ColumnImpl::n_children()] *)
Definition Cut_n_children : N := 1.

(** [Cut_ColumnImpl::child(i)]: the child column; the [xassert(i == 0)]
    fails for any other index, which is [None]. *)
Definition Cut_child (col_ : Column D) (i : N) : option (Column D) :=
  if (i =? 0)%N then Some col_ else None.

(** The condition under which [make] returns the constant-NA column. *)
Definition degenerate {T : Type} `{Elem D T} (col : Column T) (nbins : N) : bool :=
  negb (fst (get_stat col Min)) || negb (fst (get_stat col Max))
  || _isinf (snd (get_stat col Min)) || _isinf (snd (get_stat col Max))
  || (nbins =? 0)%N.

End Code.

(** The bin id as the design document words it: the floor of [x], plus
    [shift].  It is compared with [bin_id], which follows the code. *)
Definition bin_id_floor (x : spec_float) (shift : Z) : option Z :=
  f ← SF_floor x;
  Some (f + shift).

(** *** Concrete columns *)

(** The column [1.0, 2.0, 3.0, NA] of type [FLOAT64], with its minimum 1
    and maximum 3.  The NA row holds a NaN. *)
Definition column_123 : Column spec_float :=
  mkColumn 4 FLOAT64
    (fun i => match i with
              | 0%N => (true, SF_of_Z 1)
              | 1%N => (true, SF_of_Z 2)
              | 2%N => (true, SF_of_Z 3)
              | _ => (false, S754_nan)
              end)
    (fun k => match k with
              | Min => (true, SF_of_Z 1)
              | Max => (true, SF_of_Z 3)
              end).

(** A column of two NA rows: it has no valid statistics. *)
Definition column_NA : Column spec_float :=
  mkColumn 2 FLOAT64 (fun _ => (false, S754_nan)) (fun _ => (false, S754_nan)).

(** A column of type [FLOAT64] holding the single value [m * 2^e], with
    statistics [lo] and [hi]. *)
Definition column_between (lo hi : spec_float) (m e : Z) : Column spec_float :=
  mkColumn 1 FLOAT64
    (fun _ => (true, binary_normalize prec emax m e false))
    (fun k => match k with Min => (true, lo) | Max => (true, hi) end).

(** The integer column [1, 2, 3] of type [INT32]. *)
Definition column_int : Column Z :=
  mkColumn 3 INT32
    (fun i => match i with
              | 0%N => (true, 1)
              | 1%N => (true, 2)
              | _ => (true, 3)
              end)
    (fun k => match k with
              | Min => (true, 1)
              | Max => (true, 3)
              end).

(** [make<double>] *)
Definition make_double (col : Column spec_float) (nbins : N) (right_closed : bool)
  : ColumnImpl spec_float :=
  make (H0 := Elem_float) col nbins right_closed.

End Cut.

(* ===================================================================== *)
(** ** Part III: properties of [DataTable::rbind]                          *)
(* ===================================================================== *)

Module RbindFacts.

Import Rbind.
Local Open Scope Z_scope.

Lemma table_nrows_lookup (h : gmap loc DataTable) (p : loc) (dt : DataTable) :
  h !! p = Some dt -> table_nrows h p = nrows dt.
Proof. intros E. unfold table_nrows. rewrite E. reflexivity. Qed.

(** Row [r] of block [j] of a concatenation sits after the blocks before
    [j]. *)
Lemma lookup_concat_block {A : Type} (ls : list (list A)) :
  forall (j : nat) (l : list A) (r : nat),
    ls !! j = Some l -> (r < length l)%nat ->
    concat ls !! (length (concat (take j ls)) + r)%nat = l !! r.
Proof.
  induction ls as [|l0 ls IH]; intros [|j] l r Hj Hr; simpl in *;
    try discriminate.
  - injection Hj as ->. apply lookup_app_l. assumption.
  - rewrite length_app, <- Nat.add_assoc.
    rewrite lookup_app_r by lia.
    replace (length l0 + (length (concat (take j ls)) + r) - length l0)%nat
      with (length (concat (take j ls)) + r)%nat by lia.
    apply IH; assumption.
Qed.

(** The rows before block [j], counted from the row counts of the
    tables the blocks come from. *)
Lemma length_concat_take (h : gmap loc DataTable) (dts : list loc)
    (cs : list Column) :
  Forall2 (fun p c => 0 <= table_nrows h p /\
                      length (data c) = Z.to_nat (table_nrows h p)) dts cs ->
  forall j,
    0 <= sum_Z (map (table_nrows h) (take j dts)) /\
    length (concat (take j (map data cs)))
    = Z.to_nat (sum_Z (map (table_nrows h) (take j dts))).
Proof.
  induction 1 as [|p c dts cs [Hp Hc] _ IH]; intros [|j]; simpl;
    try (split; [lia | reflexivity]).
  destruct (IH j) as [Hnn Hlen]. split; [lia|].
  rewrite length_app, Hc, Hlen. lia.
Qed.

Section Properties.

Variable Column_extract : Column -> RowIndex -> option Column.
Variable Column_rbind : Column -> list Column -> option Column.
Variable reify : DataTable -> DataTable.

Abbreviation contribution' := (contribution Column_extract).
Abbreviation build_cols0' := (build_cols0 Column_extract).
Abbreviation rbind_column' := (rbind_column Column_extract Column_rbind).
Abbreviation rbind_loop' := (rbind_loop Column_extract Column_rbind).
Abbreviation prepare' := (prepare reify).
Abbreviation rbind := (DataTable_rbind Column_extract Column_rbind reify).

(** **** The row-count loop *)

Lemma sum_nrows_spec (h : gmap loc DataTable) (dts : list loc) :
  forall acc n, sum_nrows h acc dts = Some n ->
                n = acc + sum_Z (map (table_nrows h) dts).
Proof.
  induction dts as [|p rest IH]; intros acc n E; simpl in *.
  - injection E as <-. lia.
  - destruct (h !! p) as [dt|] eqn:Ep; simpl in E; [|discriminate].
    destruct (int64_ok (acc + nrows dt)); [|discriminate].
    apply IH in E. rewrite (table_nrows_lookup _ _ _ Ep). lia.
Qed.

(** **** One iteration of the outer loop *)

(** What an iteration that stores a column did. *)
Lemma rbind_column_Some (this : loc) (dts : list loc) (cols : list (list Z))
    (h h' : gmap loc DataTable) (i : nat) :
  rbind_column' this dts cols h i = Some (Some h') ->
  exists dt c0 cs ret,
    h !! this = Some dt /\
    base_column dt i = Some c0 /\
    build_cols0' h cols i 0 dts = Some (Some cs) /\
    Column_rbind c0 cs = Some ret /\
    h' = <[this := store_column dt i ret]> h.
Proof.
  unfold rbind_column. intros E.
  destruct (h !! this) as [dt|] eqn:Et; simpl in E; [|discriminate].
  destruct (build_cols0' h cols i 0 dts) as [[cs|]|] eqn:Eb; simpl in E;
    try discriminate.
  destruct (base_column dt i) as [c0|] eqn:E0; simpl in E; [|discriminate].
  destruct (Column_rbind c0 cs) as [ret|] eqn:Er; [|discriminate].
  injection E as <-. exists dt, c0, cs, ret. auto.
Qed.

(** **** The outer loop *)

(** The loop only ever writes the receiver, and only its column array. *)
Lemma rbind_loop_frame (this : loc) (dts : list loc) (cols : list (list Z))
    (ixs : list nat) :
  forall h h' b,
    rbind_loop' this dts cols h ixs = Some (h', b) ->
    (forall p, p <> this -> h' !! p = h !! p) /\
    (forall dt, h !! this = Some dt ->
       exists dt', h' !! this = Some dt' /\ ncols dt' = ncols dt /\
                   nrows dt' = nrows dt /\ rowindex dt' = rowindex dt /\
                   length (columns dt') = length (columns dt)).
Proof.
  induction ixs as [|i rest IH]; intros h h' b E; simpl in E.
  - injection E as <- <-. split; [reflexivity | eauto 10].
  - destruct (rbind_column' this dts cols h i) as [[h1|]|] eqn:Ec; simpl in E;
      try discriminate.
    + apply rbind_column_Some in Ec as (dt & c0 & cs & ret & Et & _ & _ & _ & ->).
      apply IH in E as [Hframe Hthis]. split.
      * intros p Hp. rewrite Hframe by assumption.
        apply lookup_insert_ne. congruence.
      * intros dt0 Edt0. rewrite Et in Edt0. injection Edt0 as <-.
        destruct (Hthis (store_column dt i ret)) as (dt' & ? & ? & ? & ? & Hlen).
        { apply lookup_insert_eq. }
        exists dt'. simpl in *. rewrite length_insert in Hlen. auto.
    + injection E as <- <-. split; [reflexivity | eauto 10].
Qed.

Lemma rbind_column_None_store (this : loc) (dts : list loc) (cols : list (list Z))
    (h : gmap loc DataTable) (i : nat) :
  rbind_column' this dts cols h i = Some None ->
  rbind_loop' this dts cols h [i] = Some (h, false).
Proof. intros E. simpl. rewrite E. reflexivity. Qed.

Lemma rbind_loop_app (this : loc) (dts : list loc) (cols : list (list Z))
    (l1 l2 : list nat) :
  forall h,
    rbind_loop' this dts cols h (l1 ++ l2) =
    match rbind_loop' this dts cols h l1 with
    | Some (h1, true) => rbind_loop' this dts cols h1 l2
    | other => other
    end.
Proof.
  induction l1 as [|i l1 IH]; intros h; simpl; [reflexivity|].
  destruct (rbind_column' this dts cols h i) as [[h1|]|]; simpl; auto.
Qed.

(** Columns whose index the loop does not visit are not written. *)
Lemma rbind_loop_columns_other (this : loc) (dts : list loc)
    (cols : list (list Z)) (ixs : list nat) :
  forall h h' b dt dt',
    rbind_loop' this dts cols h ixs = Some (h', b) ->
    h !! this = Some dt -> h' !! this = Some dt' ->
    forall i, i ∉ ixs -> columns dt' !! i = columns dt !! i.
Proof.
  induction ixs as [|k rest IH]; intros h h' b dt dt' E Et Et' i Hi; simpl in E.
  - injection E as <- <-. congruence.
  - destruct (rbind_column' this dts cols h k) as [[h1|]|] eqn:Ec; simpl in E;
      try discriminate.
    + apply rbind_column_Some in Ec as (dt0 & c0 & cs & ret & Et0 & _ & _ & _ & ->).
      assert (dt0 = dt) as -> by congruence.
      rewrite (IH _ _ _ (store_column dt k ret) dt' E).
      * simpl. apply list_lookup_insert_ne. intros ->. apply Hi. left.
      * apply lookup_insert_eq.
      * assumption.
      * intros Hin. apply Hi. right. assumption.
    + injection E as <- <-. congruence.
Qed.

(** Columns the loop visited successfully hold the result of a fusion. *)
Lemma rbind_loop_columns_fused (this : loc) (dts : list loc)
    (cols : list (list Z)) (ixs : list nat) :
  forall h h' dt dt',
    rbind_loop' this dts cols h ixs = Some (h', true) ->
    h !! this = Some dt -> h' !! this = Some dt' ->
    forall i, i ∈ ixs -> (i < length (columns dt))%nat ->
      exists c0 cs ret,
        Column_rbind c0 cs = Some ret /\ columns dt' !! i = Some (Some ret).
Proof.
  induction ixs as [|k rest IH]; intros h h' dt dt' E Et Et' i Hi Hlen; simpl in E.
  - inversion Hi.
  - destruct (rbind_column' this dts cols h k) as [[h1|]|] eqn:Ec; simpl in E;
      try discriminate.
    apply rbind_column_Some in Ec as (dt0 & c0 & cs & ret & Et0 & _ & _ & Hr & ->).
    assert (dt0 = dt) as -> by congruence.
    assert (Et1 : <[this := store_column dt k ret]> h !! this
                  = Some (store_column dt k ret)) by apply lookup_insert_eq.
    destruct (decide (i ∈ rest)) as [Hin|Hnin].
    + apply (IH _ _ _ _ E Et1 Et' i Hin). simpl. rewrite length_insert. assumption.
    + rewrite (rbind_loop_columns_other _ _ _ _ _ _ _ _ _ E Et1 Et' i Hnin).
      apply elem_of_cons in Hi as [->|Hin]; [|contradiction].
      exists c0, cs, ret. split; [assumption|].
      simpl. apply list_lookup_insert_eq. assumption.
Qed.

(** **** The method *)

Lemma rbind_inv (h : gmap loc DataTable) (this : loc) (dts : list loc)
    (cols : list (list Z)) (ncols__ : Z) (h' : gmap loc DataTable)
    (r : option loc) :
  rbind h this dts cols ncols__ = Some (h', r) ->
  exists dt0 nrows__ h2 b,
    h !! this = Some dt0 /\ ncols dt0 <= ncols__ /\
    sum_nrows (prepare' h this dt0 ncols__)
              (table_nrows (prepare' h this dt0 ncols__) this) dts = Some nrows__ /\
    rbind_loop' this dts cols (prepare' h this dt0 ncols__)
                (seq 0 (Z.to_nat ncols__)) = Some (h2, b) /\
    ((b = false /\ h' = h2 /\ r = None) \/
     (b = true /\ exists dt, h2 !! this = Some dt /\
                  h' = <[this := commit dt ncols__ nrows__]> h2 /\ r = Some this)).
Proof.
  unfold DataTable_rbind. intros E.
  destruct (h !! this) as [dt0|] eqn:Et; simpl in E; [|discriminate].
  destruct (ncols dt0 <=? ncols__) eqn:Ea; simpl in E; [|discriminate].
  apply Z.leb_le in Ea.
  destruct (sum_nrows _ _ dts) as [nrows__|] eqn:Es; simpl in E; [|discriminate].
  destruct (rbind_loop' _ _ _ _ _) as [[h2 [|]]|] eqn:El; simpl in E;
    try discriminate.
  - destruct (h2 !! this) as [dt|] eqn:E2; simpl in E; [|discriminate].
    injection E as <- <-. exists dt0, nrows__, h2, true. eauto 10.
  - injection E as <- <-. exists dt0, nrows__, h2, false. auto 10.
Qed.

Lemma prepare_lookup_this (h : gmap loc DataTable) (this : loc)
    (dt0 : DataTable) (ncols__ : Z) :
  prepare' h this dt0 ncols__ !! this
  = Some (set_columns (reify dt0)
            (grow_columns (columns (reify dt0)) (ncols (reify dt0)) ncols__)).
Proof. unfold prepare. apply lookup_insert_eq. Qed.

Lemma prepare_lookup_other (h : gmap loc DataTable) (this p : loc)
    (dt0 : DataTable) (ncols__ : Z) :
  p <> this -> prepare' h this dt0 ncols__ !! p = h !! p.
Proof. intros Hp. unfold prepare. apply lookup_insert_ne. congruence. Qed.

(** Every table other than the receiver is the same after the call,
    whatever the call returns. *)
Lemma rbind_frame_any (h : gmap loc DataTable) (this : loc) (dts : list loc)
    (cols : list (list Z)) (ncols__ : Z) (h' : gmap loc DataTable)
    (r : option loc) (p : loc) :
  rbind h this dts cols ncols__ = Some (h', r) ->
  p <> this -> h' !! p = h !! p.
Proof.
  intros E Hp.
  apply rbind_inv in E as (dt0 & nrows__ & h2 & b & Et & _ & _ & El & Hres).
  apply rbind_loop_frame in El as [Hframe _].
  destruct Hres as [(_ & -> & _) | (_ & dt & _ & -> & _)].
  - rewrite Hframe by assumption. apply prepare_lookup_other. assumption.
  - rewrite lookup_insert_ne by congruence.
    rewrite Hframe by assumption. apply prepare_lookup_other. assumption.
Qed.

(** **** Contracts of the collaborators

    [reify()] keeps the row and column counts of the table. *)
Hypothesis reify_nrows : forall dt, nrows (reify dt) = nrows dt.
Hypothesis reify_ncols : forall dt, ncols (reify dt) = ncols dt.

Lemma prepare_table_nrows (h : gmap loc DataTable) (this : loc)
    (dt0 : DataTable) (ncols__ : Z) (p : loc) :
  h !! this = Some dt0 ->
  table_nrows (prepare' h this dt0 ncols__) p = table_nrows h p.
Proof.
  intros Et. unfold table_nrows. destruct (decide (p = this)) as [->|Hp].
  - rewrite prepare_lookup_this, Et. simpl. apply reify_nrows.
  - rewrite prepare_lookup_other by assumption. reflexivity.
Qed.

(** C2 (row-count law).  When [rbind] succeeds, the table it returns has
    as many rows as the receiver had before the call plus the sum of the
    row counts of the source tables [dts[0]], ..., [dts[ndts-1]]. *)
Theorem rbind_row_count (h : gmap loc DataTable) (this : loc) (dts : list loc)
    (cols : list (list Z)) (ncols__ : Z) (h' : gmap loc DataTable) (r : loc) :
  rbind h this dts cols ncols__ = Some (h', Some r) ->
  exists dt dt',
    r = this /\ h !! this = Some dt /\ h' !! r = Some dt' /\
    nrows dt' = nrows dt + sum_Z (map (table_nrows h) dts).
Proof.
  intros E.
  apply rbind_inv in E as (dt0 & nrows__ & h2 & b & Et & _ & Es & _ & Hres).
  destruct Hres as [(_ & _ & ?) | (_ & dt & _ & -> & Hr)]; [discriminate|].
  injection Hr as <-.
  exists dt0, (commit dt ncols__ nrows__). repeat split; try assumption.
  - apply lookup_insert_eq.
  - simpl. apply sum_nrows_spec in Es. rewrite Es.
    rewrite (prepare_table_nrows _ _ _ _ _ Et).
    rewrite (table_nrows_lookup _ _ _ Et). f_equal. f_equal.
    apply map_ext. intros p. apply prepare_table_nrows. assumption.
Qed.

(** C9, as amended (frame).  Whatever [rbind] returns, every source table
    other than the receiver itself is the same object after the call as
    before it: same columns, [ncols], [nrows] and row index. *)
Theorem rbind_sources_unchanged (h : gmap loc DataTable) (this : loc)
    (dts : list loc) (cols : list (list Z)) (ncols__ : Z)
    (h' : gmap loc DataTable) (r : option loc) (j : nat) (p : loc) :
  rbind h this dts cols ncols__ = Some (h', r) ->
  dts !! j = Some p -> p <> this ->
  h' !! p = h !! p.
Proof. intros E _ Hp. exact (rbind_frame_any _ _ _ _ _ _ _ _ E Hp). Qed.

(** C1, as amended (failure leaves a partial update).  Take a call whose
    [assert] holds and whose row-count loop is defined.  Suppose the
    iterations for the result columns before [k] succeeded, reaching the
    store [hk], and the iteration for column [k] fails: a contribution or
    the fusion is null.  Then [rbind] returns [NULL] and the final store
    is [hk].  In it the receiver has the [ncols] and [nrows] it had before
    the call and the row index [reify()] left; its columns from index [k]
    on are those [reify()] left (null in the new slots), and its columns
    before [k] have been replaced by fused columns. *)
Theorem rbind_failure_partial (h : gmap loc DataTable) (this : loc)
    (dts : list loc) (cols : list (list Z)) (ncols__ : Z) (dt : DataTable)
    (k : nat) (hk : gmap loc DataTable) :
  h !! this = Some dt ->
  ncols dt <= ncols__ ->
  is_Some (sum_nrows (prepare' h this dt ncols__)
                     (table_nrows (prepare' h this dt ncols__) this) dts) ->
  (k < Z.to_nat ncols__)%nat ->
  rbind_loop' this dts cols (prepare' h this dt ncols__) (seq 0 k) = Some (hk, true) ->
  rbind_column' this dts cols hk k = Some None ->
  rbind h this dts cols ncols__ = Some (hk, None) /\
  exists dt',
    hk !! this = Some dt' /\
    ncols dt' = ncols dt /\ nrows dt' = nrows dt /\
    rowindex dt' = rowindex (reify dt) /\
    (forall i, (k <= i)%nat ->
       columns dt' !! i
       = grow_columns (columns (reify dt)) (ncols (reify dt)) ncols__ !! i) /\
    (forall i, (i < k)%nat ->
       exists c0 cs ret,
         Column_rbind c0 cs = Some ret /\ columns dt' !! i = Some (Some ret)).
Proof.
  intros Et Hassert [nrows__ Es] Hk Epre Efail. split.
  - unfold DataTable_rbind. rewrite Et. simpl.
    replace (ncols dt <=? ncols__) with true by (symmetry; apply Z.leb_le; assumption).
    simpl. rewrite Es. simpl.
    replace (seq 0 (Z.to_nat ncols__))
      with (seq 0 k ++ [k] ++ seq (S k) (Z.to_nat ncols__ - S k)).
    2:{ change ([k] ++ seq (S k) (Z.to_nat ncols__ - S k))
          with (seq k (S (Z.to_nat ncols__ - S k))).
        rewrite <- seq_app. f_equal. lia. }
    rewrite rbind_loop_app, Epre, rbind_loop_app.
    rewrite (rbind_column_None_store _ _ _ _ _ Efail). reflexivity.
  - pose proof (prepare_lookup_this h this dt ncols__) as E1.
    destruct (rbind_loop_frame _ _ _ _ _ _ _ Epre) as [_ Hthis].
    destruct (Hthis _ E1) as (dt' & Et' & Hnc & Hnr & Hri & Hlen).
    simpl in Hnc, Hnr, Hri, Hlen.
    exists dt'. split; [assumption|].
    split; [rewrite Hnc; apply reify_ncols|].
    split; [rewrite Hnr; apply reify_nrows|].
    split; [assumption|]. split.
    + intros i Hi.
      rewrite (rbind_loop_columns_other _ _ _ _ _ _ _ _ _ Epre E1 Et' i).
      * reflexivity.
      * rewrite elem_of_seq. lia.
    + intros i Hi.
      apply (rbind_loop_columns_fused _ _ _ _ _ _ _ _ Epre E1 Et' i).
      * rewrite elem_of_seq. lia.
      * simpl. unfold grow_columns. rewrite length_resize. lia.
Qed.

(** **** The contributions of the source tables *)

Lemma contribution_ext (h1 h2 : gmap loc DataTable) (cols : list (list Z))
    (i j : nat) (p : loc) :
  h1 !! p = h2 !! p ->
  contribution' h1 cols i j p = contribution' h2 cols i j p.
Proof. intros E. unfold contribution. rewrite E. reflexivity. Qed.

(** A successful inner loop yields one column per source table, each the
    contribution of its table. *)
Lemma build_cols0_lookup (h : gmap loc DataTable) (cols : list (list Z))
    (i : nat) (dts : list loc) :
  forall j cs,
    build_cols0' h cols i j dts = Some (Some cs) ->
    length cs = length dts /\
    forall k p c, dts !! k = Some p -> cs !! k = Some c ->
                  contribution' h cols i (j + k) p = Some (Some c).
Proof.
  induction dts as [|p rest IH]; intros j cs E; simpl in E.
  - injection E as <-. split; [reflexivity|]. intros k q c Hk. discriminate.
  - destruct (contribution' h cols i j p) as [[c0|]|] eqn:Ec; simpl in E;
      try discriminate.
    destruct (build_cols0' h cols i (S j) rest) as [[cs'|]|] eqn:Er; simpl in E;
      try discriminate.
    injection E as <-. destruct (IH _ _ Er) as [Hlen Hk]. split.
    + simpl. rewrite Hlen. reflexivity.
    + intros [|k] q c Hq Hc; simpl in Hq, Hc.
      * injection Hq as <-. injection Hc as <-.
        replace (j + 0)%nat with j by lia. assumption.
      * replace (j + S k)%nat with (S j + k)%nat by lia. eauto.
Qed.

(** A contribution for a negative entry of [cols] is the void column of
    the source's row count. *)
Lemma contribution_negative (h : gmap loc DataTable) (cols : list (list Z))
    (i j : nat) (p : loc) (x : Z) (c : Column) :
  (cols !! i) ≫= (.!! j) = Some x -> x < 0 ->
  contribution' h cols i j p = Some (Some c) ->
  c = Column_void (table_nrows h p).
Proof.
  unfold contribution. intros -> Hx E. simpl in E.
  destruct (h !! p) as [dtj|] eqn:Ep; simpl in E; [|discriminate].
  apply Z.ltb_lt in Hx. rewrite Hx in E. injection E as <-.
  rewrite (table_nrows_lookup _ _ _ Ep). reflexivity.
Qed.

(** **** What the loop leaves in each column *)

(** Each column the loop visits is fused in some intermediate store [hi],
    which differs from the initial one in the receiver's columns only;
    the fused column is still there when the loop ends. *)
Lemma rbind_loop_steps (this : loc) (dts : list loc) (cols : list (list Z))
    (ixs : list nat) :
  forall h h' dt dt',
    rbind_loop' this dts cols h ixs = Some (h', true) ->
    h !! this = Some dt -> h' !! this = Some dt' ->
    NoDup ixs -> (forall i, i ∈ ixs -> (i < length (columns dt))%nat) ->
    forall i, i ∈ ixs ->
      exists hi dti c0 cs ret,
        hi !! this = Some dti /\
        (forall p, p <> this -> hi !! p = h !! p) /\
        ncols dti = ncols dt /\ nrows dti = nrows dt /\
        columns dti !! i = columns dt !! i /\
        base_column dti i = Some c0 /\
        build_cols0' hi cols i 0 dts = Some (Some cs) /\
        Column_rbind c0 cs = Some ret /\
        columns dt' !! i = Some (Some ret).
Proof.
  induction ixs as [|k rest IH]; intros h h' dt dt' E Et Et' Hnd Hlen i Hi;
    simpl in E.
  - inversion Hi.
  - destruct (rbind_column' this dts cols h k) as [[h1|]|] eqn:Ec; simpl in E;
      try discriminate.
    apply rbind_column_Some in Ec as (dt0 & c0 & cs & ret & Et0 & Hb & Hc & Hr & ->).
    assert (dt0 = dt) as -> by congruence.
    apply NoDup_cons in Hnd as [Hk Hnd].
    assert (Et1 : <[this := store_column dt k ret]> h !! this
                  = Some (store_column dt k ret)) by apply lookup_insert_eq.
    apply elem_of_cons in Hi as [->|Hin].
    + exists h, dt, c0, cs, ret. repeat split; try assumption.
      rewrite (rbind_loop_columns_other _ _ _ _ _ _ _ _ _ E Et1 Et' k Hk).
      simpl. apply list_lookup_insert_eq. apply Hlen. left.
    + assert (i <> k) by (intros ->; contradiction).
      destruct (IH _ _ _ _ E Et1 Et' Hnd) with (i := i)
        as (hi & dti & c0' & cs' & ret' & Hti & Hfr & Hnc & Hnr & Hcols & Hrest);
        try assumption.
      { intros i' Hi'. simpl. rewrite length_insert. apply Hlen. right. assumption. }
      exists hi, dti, c0', cs', ret'. repeat split; try tauto.
      * intros p Hp. rewrite Hfr by assumption. apply lookup_insert_ne. congruence.
      * rewrite Hcols. simpl. apply list_lookup_insert_ne. congruence.
Qed.

(** **** Further contracts

    [Column::rbind] lays out the receiver's rows and then the rows of
    each block, in order; [Column::extract] yields as many rows as the
    row index has; [reify()] leaves a table that satisfies the table
    invariant and has no row index. *)
Hypothesis Column_rbind_data : forall c cs ret,
  Column_rbind c cs = Some ret -> data ret = data c ++ concat (map data cs).
Hypothesis Column_extract_length : forall c ri c',
  Column_extract c ri = Some c' -> length (data c') = RowIndex_length ri.
Hypothesis reify_wf : forall dt,
  wf_table dt -> wf_table (reify dt) /\ rowindex (reify dt) = None.

Lemma contribution_length (h : gmap loc DataTable) (cols : list (list Z))
    (i j : nat) (p : loc) (dtj : DataTable) (c : Column) :
  h !! p = Some dtj -> wf_table dtj ->
  contribution' h cols i j p = Some (Some c) ->
  length (data c) = Z.to_nat (table_nrows h p).
Proof.
  intros Ep [Hnn Hwf] E. rewrite (table_nrows_lookup _ _ _ Ep).
  unfold contribution in E.
  destruct ((cols !! i) ≫= (.!! j)) as [x|]; simpl in E; [|discriminate].
  rewrite Ep in E. simpl in E.
  destruct (x <? 0).
  - injection E as <-. simpl. apply length_replicate.
  - destruct (columns dtj !! Z.to_nat x) as [[col|]|] eqn:Ecol; simpl in E;
      try discriminate.
    destruct (rowindex dtj) as [ri|].
    + injection E as E. apply Column_extract_length in E. congruence.
    + injection E as <-. eapply Hwf. eassumption.
Qed.

Lemma grow_columns_lookup (cs : list (option Column)) (nc nc__ : Z) (i : nat)
    (c : Column) :
  grow_columns cs nc nc__ !! i = Some (Some c) -> cs !! i = Some (Some c).
Proof.
  unfold grow_columns. intros E.
  destruct (decide (i < length (take (Z.to_nat nc) cs))%nat) as [Hlt|Hge].
  - assert (Hi : (i < Z.to_nat (nc__ + 1))%nat).
    { apply lookup_lt_Some in E. rewrite length_resize in E. assumption. }
    rewrite lookup_resize in E by assumption.
    rewrite lookup_take_Some in E. tauto.
  - assert (Hi : (i < Z.to_nat (nc__ + 1))%nat).
    { apply lookup_lt_Some in E. rewrite length_resize in E. assumption. }
    rewrite lookup_resize_new in E by lia. discriminate.
Qed.

(** C3 (NA-fill law).  After a successful [rbind] every result column
    [i < ncols__] is a column [c] whose rows are those of a base column
    [c0] followed by one block per source table, such that:

    - if [i] is at or beyond the receiver's prior [ncols], then [c0] is
      the void column of the receiver's prior row count, so the first
      [nrows] rows of [c] are NA;
    - for every source [j] with [cols[i][j] < 0], block [j] is the void
      column of that source's row count, so all rows of block [j] in [c]
      are NA;
    - when the tables satisfy the table invariant and the receiver is not
      one of its own sources, the base has the receiver's prior row count
      and block [j] starts after the rows of the sources before it. *)
Theorem rbind_NA_fill (h : gmap loc DataTable) (this : loc) (dts : list loc)
    (cols : list (list Z)) (ncols__ : Z) (dt : DataTable)
    (h' : gmap loc DataTable) :
  h !! this = Some dt ->
  rbind h this dts cols ncols__ = Some (h', Some this) ->
  exists dt',
    h' !! this = Some dt' /\
    forall i : nat, (i < Z.to_nat ncols__)%nat ->
      exists c c0 blocks,
        columns dt' !! i = Some (Some c) /\
        data c = data c0 ++ concat (map data blocks) /\
        length blocks = length dts /\
        (ncols dt <= Z.of_nat i ->
           c0 = Column_void (nrows dt) /\
           forall r : nat, Z.of_nat r < nrows dt -> is_NA c r) /\
        (forall (j : nat) (x : Z) (p : loc),
           (cols !! i) ≫= (.!! j) = Some x -> x < 0 -> dts !! j = Some p ->
           blocks !! j = Some (Column_void (table_nrows h p)) /\
           forall r : nat, Z.of_nat r < table_nrows h p ->
             is_NA c (length (data c0)
                      + length (concat (take j (map data blocks))) + r)) /\
        ((forall p d, p ∈ this :: dts -> h !! p = Some d -> wf_table d) ->
         this ∉ dts ->
         length (data c0) = Z.to_nat (nrows dt) /\
         forall j : nat,
           length (concat (take j (map data blocks)))
           = Z.to_nat (sum_Z (map (table_nrows h) (take j dts)))).
Proof.
  intros Et E.
  apply rbind_inv in E as (dt0 & nrows__ & h2 & b & Et0 & _ & Es & El & Hres).
  assert (dt0 = dt) as -> by congruence.
  destruct Hres as [(_ & _ & ?) | (-> & dtf & Ef & -> & _)]; [discriminate|].
  exists (commit dtf ncols__ nrows__). split; [apply lookup_insert_eq|].
  intros i Hi. simpl.
  pose proof (prepare_lookup_this h this dt ncols__) as E1.
  set (h1 := prepare' h this dt ncols__) in *.
  set (dt1 := set_columns (reify dt)
                (grow_columns (columns (reify dt)) (ncols (reify dt)) ncols__)) in *.
  destruct (rbind_loop_steps this dts cols (seq 0 (Z.to_nat ncols__))
              h1 h2 dt1 dtf El E1 Ef) with (i := i)
    as (hi & dti & c0 & cs & ret & Hti & Hfr & Hnc & Hnr & Hcols & Hb & Hc & Hr & Hcol).
  { apply NoDup_seq. }
  { intros i' Hi'. apply elem_of_seq in Hi'. subst dt1. simpl.
    unfold grow_columns. rewrite length_resize. lia. }
  { apply elem_of_seq. lia. }
  assert (Hnr1 : nrows dti = nrows dt).
  { rewrite Hnr. subst dt1. simpl. apply reify_nrows. }
  assert (Hnc1 : ncols dti = ncols dt).
  { rewrite Hnc. subst dt1. simpl. apply reify_ncols. }
  assert (Hrows : forall p, table_nrows hi p = table_nrows h p).
  { intros p. destruct (decide (p = this)) as [->|Hp].
    - rewrite (table_nrows_lookup _ _ _ Hti), (table_nrows_lookup _ _ _ Et).
      assumption.
    - unfold table_nrows. rewrite Hfr by assumption. subst h1.
      rewrite prepare_lookup_other by assumption. reflexivity. }
  destruct (build_cols0_lookup _ _ _ _ _ _ Hc) as [Hlen Hk].
  pose proof (Column_rbind_data _ _ _ Hr) as Hdata.
  exists ret, c0, cs. split; [assumption|]. split; [assumption|].
  split; [assumption|]. split; [|split].
  - (* the receiver's part of a new column *)
    intros Hnew.
    unfold base_column in Hb. rewrite Hnc1, Hnr1 in Hb.
    replace (Z.of_nat i <? ncols dt) with false in Hb
      by (symmetry; apply Z.ltb_ge; assumption).
    injection Hb as <-. split; [reflexivity|].
    intros r Hrow. unfold is_NA. rewrite Hdata. simpl.
    rewrite lookup_app_l by (rewrite length_replicate; lia).
    apply lookup_replicate_2. lia.
  - (* the block of a source without the field *)
    intros j x p Hx Hneg Hj.
    assert (exists c, cs !! j = Some c) as [c Hcj].
    { apply lookup_lt_is_Some. rewrite Hlen. eapply lookup_lt_Some. eassumption. }
    pose proof (Hk _ _ _ Hj Hcj) as Hcontr. simpl in Hcontr.
    apply (contribution_negative _ _ _ _ _ _ _ Hx Hneg) in Hcontr.
    rewrite Hrows in Hcontr. subst c. split; [assumption|].
    intros r Hrow. unfold is_NA. rewrite Hdata.
    rewrite <- Nat.add_assoc, lookup_app_r by lia.
    replace (length (data c0) + (length (concat (take j (map data cs))) + r)
             - length (data c0))%nat
      with (length (concat (take j (map data cs))) + r)%nat by lia.
    rewrite (lookup_concat_block _ j (data (Column_void (table_nrows h p)))).
    + simpl. apply lookup_replicate_2. lia.
    + rewrite list_lookup_fmap, Hcj. reflexivity.
    + simpl. rewrite length_replicate. lia.
  - (* where the blocks start *)
    intros Hwf Hna.
    assert (Hwft : wf_table dt) by (apply (Hwf this); [left | assumption]).
    destruct (reify_wf dt Hwft) as [[_ Hwfr] Hri]. rewrite Hri in Hwfr.
    assert (Hlook : forall q, q ∈ dts -> hi !! q = h !! q).
    { intros q Hq. assert (q <> this) by (intros ->; contradiction).
      rewrite Hfr by assumption. subst h1.
      apply prepare_lookup_other. assumption. }
    split.
    + unfold base_column in Hb. rewrite Hnc1, Hnr1 in Hb.
      destruct (Z.of_nat i <? ncols dt).
      * rewrite Hcols in Hb.
        destruct (columns dt1 !! i) as [[c|]|] eqn:Ecol; simpl in Hb;
          try discriminate.
        injection Hb as ->. subst dt1. simpl in Ecol.
        apply grow_columns_lookup in Ecol. rewrite <- (reify_nrows dt).
        eapply Hwfr. eassumption.
      * injection Hb as <-. simpl. apply length_replicate.
    + intros j. apply length_concat_take.
      apply Forall2_same_length_lookup. split; [symmetry; assumption|].
      intros k q c Hq Hcq.
      assert (Hin : q ∈ dts) by (eapply list_elem_of_lookup_2; eassumption).
      pose proof (Hk _ _ _ Hq Hcq) as Hcontr. simpl in Hcontr.
      rewrite (contribution_ext _ h) in Hcontr by auto.
      assert (exists d, h !! q = Some d) as [d Hd].
      { unfold contribution in Hcontr.
        destruct ((cols !! i) ≫= (.!! k)); simpl in Hcontr; [|discriminate].
        destruct (h !! q); [eauto | discriminate]. }
      assert (Hwfd : wf_table d) by (apply (Hwf q); [right|]; assumption).
      split.
      * rewrite (table_nrows_lookup _ _ _ Hd). apply Hwfd.
      * eapply contribution_length; eassumption.
Qed.

End Properties.

(** **** The reference collaborators meet the contracts *)

Lemma reify_spec_nrows (dt : DataTable) : nrows (reify_spec dt) = nrows dt.
Proof. unfold reify_spec. destruct (rowindex dt); reflexivity. Qed.

Lemma reify_spec_ncols (dt : DataTable) : ncols (reify_spec dt) = ncols dt.
Proof. unfold reify_spec. destruct (rowindex dt); reflexivity. Qed.

Lemma Column_rbind_spec_data (c : Column) (cs : list Column) (ret : Column) :
  Column_rbind_spec c cs = Some ret -> data ret = data c ++ concat (map data cs).
Proof.
  unfold Column_rbind_spec. destruct (fusable _); [|discriminate].
  intros [= <-]. reflexivity.
Qed.

Lemma RowIndex_positions_length (ri : RowIndex) :
  length (RowIndex_positions ri) = RowIndex_length ri.
Proof.
  destruct ri as [start step count | ind]; simpl; [|reflexivity].
  rewrite length_map. apply length_seq.
Qed.

Lemma Column_extract_spec_length (c : Column) (ri : RowIndex) (c' : Column) :
  Column_extract_spec c ri = Some c' -> length (data c') = RowIndex_length ri.
Proof.
  unfold Column_extract_spec. intros [= <-]. simpl.
  rewrite length_map. apply RowIndex_positions_length.
Qed.

Lemma reify_spec_wf (dt : DataTable) :
  wf_table dt -> wf_table (reify_spec dt) /\ rowindex (reify_spec dt) = None.
Proof.
  unfold wf_table, reify_spec. intros [Hnn Hwf].
  destruct (rowindex dt) as [ri|] eqn:Eri; simpl.
  - split; [|reflexivity]. split; [assumption|].
    intros i c Hc. rewrite list_lookup_fmap in Hc.
    destruct (columns dt !! i) as [[c0|]|]; simpl in Hc; try discriminate.
    injection Hc as <-. simpl.
    rewrite length_map, RowIndex_positions_length. assumption.
  - rewrite Eri. auto.
Qed.

Lemma wf_table_of (cs : list Column) (nr : Z) :
  0 <= nr -> Forall (fun c => length (data c) = Z.to_nat nr) cs ->
  wf_table (table_of cs nr).
Proof.
  intros Hnn Hall. split; [assumption|]. simpl. intros i c Hc.
  apply lookup_app_Some in Hc as [Hc | [_ Hc]].
  - rewrite list_lookup_fmap in Hc.
    destruct (cs !! i) as [c0|] eqn:E0; simpl in Hc; [|discriminate].
    injection Hc as <-. rewrite Forall_lookup in Hall. eapply Hall. eassumption.
  - destruct (i - length (map Some cs))%nat as [|[|n]]; discriminate.
Qed.

Lemma store_AB_wf (p : loc) (d : DataTable) :
  store_AB !! p = Some d -> wf_table d.
Proof.
  unfold store_AB. intros E.
  apply lookup_insert_Some in E as [[_ <-] | [_ E]].
  { apply wf_table_of; [lia | repeat constructor]. }
  apply lookup_insert_Some in E as [[_ <-] | [_ E]].
  { apply wf_table_of; [lia | repeat constructor]. }
  rewrite lookup_empty in E. discriminate.
Qed.

(** **** The method on concrete tables *)

Lemma rbind_row_count_witness :
  exists dt dt',
    1%positive = 1%positive /\ store_AB !! 1%positive = Some dt /\
    final_store (run_rbind store_AB 1%positive [2%positive] cols_fill 3)
      !! 1%positive = Some dt' /\
    nrows dt' = nrows dt + sum_Z (map (table_nrows store_AB) [2%positive]).
Proof.
  apply (rbind_row_count Column_extract_spec Column_rbind_spec reify_spec
           reify_spec_nrows store_AB 1%positive [2%positive] cols_fill 3).
  vm_compute. reflexivity.
Defined.

Lemma rbind_sources_unchanged_witness :
  final_store (run_rbind store_AB 1%positive [2%positive] cols_clash 2)
    !! 2%positive = store_AB !! 2%positive.
Proof.
  apply (rbind_sources_unchanged Column_extract_spec Column_rbind_spec reify_spec
           store_AB 1%positive [2%positive] cols_clash 2 _ None 0%nat).
  - vm_compute. reflexivity.
  - reflexivity.
  - discriminate.
Defined.

(** C9, counterexample.  [A.rbind([A], {{0}, {1}}, 1, 2)] succeeds, and
    the source table [dts[0]], which is the receiver, has changed. *)
Lemma rbind_self_source_changed :
  snd <$> run_rbind store_AB 1%positive [1%positive] cols_clash 2
    = Some (Some 1%positive) /\
  [1%positive] !! 0%nat = Some 1%positive /\
  final_store (run_rbind store_AB 1%positive [1%positive] cols_clash 2)
    !! 1%positive <> store_AB !! 1%positive.
Proof.
  split; [vm_compute; reflexivity|]. split; [reflexivity|].
  intros E. vm_compute in E. discriminate.
Qed.

(** C1, counterexample.  In [A.rbind([B], {{0}, {1}}, 1, 2)] the fusion
    of A's string column with B's integer column fails and the call
    returns [NULL], but the receiver is not as it was: its column 0
    already holds the fused rows 10, 20, 30.  With the view V as the
    receiver the same call also fails, and V has lost its row index. *)
Lemma rbind_failure_changes_receiver :
  (Column_rbind_spec (str_column [1; 2]) [int_column [40]] = None /\
   snd <$> run_rbind store_AB 1%positive [2%positive] cols_clash 2 = Some None /\
   columns <$> (final_store (run_rbind store_AB 1%positive [2%positive] cols_clash 2)
                !! 1%positive)
     = Some [Some (int_column [10; 20; 30]); Some (str_column [1; 2]); None] /\
   final_store (run_rbind store_AB 1%positive [2%positive] cols_clash 2)
     !! 1%positive <> store_AB !! 1%positive) /\
  (snd <$> run_rbind store_VB 1%positive [2%positive] cols_clash 2 = Some None /\
   rowindex <$> (store_VB !! 1%positive) = Some (Some (RI_slice 0 1 2)) /\
   rowindex <$> (final_store (run_rbind store_VB 1%positive [2%positive] cols_clash 2)
                 !! 1%positive) = Some None).
Proof.
  split.
  - split; [vm_compute; reflexivity|]. split; [vm_compute; reflexivity|].
    split; [vm_compute; reflexivity|].
    intros E. vm_compute in E. discriminate.
  - repeat split; vm_compute; reflexivity.
Qed.

Lemma rbind_failure_partial_witness :
  run_rbind store_AB 1%positive [2%positive] cols_clash 2
  = Some (final_store (run_rbind store_AB 1%positive [2%positive] cols_clash 2), None) /\
  exists dt',
    final_store (run_rbind store_AB 1%positive [2%positive] cols_clash 2)
      !! 1%positive = Some dt' /\
    ncols dt' = 2 /\ nrows dt' = 2 /\
    columns dt' !! 0%nat = Some (Some (int_column [10; 20; 30])).
Proof.
  destruct (rbind_failure_partial Column_extract_spec Column_rbind_spec reify_spec
              reify_spec_nrows reify_spec_ncols
              store_AB 1%positive [2%positive] cols_clash 2 table_A 1%nat
              (final_store (run_rbind store_AB 1%positive [2%positive] cols_clash 2)))
    as (Hret & dt' & Et & Hnc & Hnr & _ & _ & _).
  - reflexivity.
  - vm_compute. discriminate.
  - exists 3. vm_compute. reflexivity.
  - vm_compute. lia.
  - vm_compute. reflexivity.
  - vm_compute. reflexivity.
  - split; [exact Hret|].
    exists dt'. split; [exact Et|]. split; [exact Hnc|]. split; [exact Hnr|].
    vm_compute in Et. injection Et as <-. reflexivity.
Defined.

Lemma rbind_NA_fill_witness :
  exists dt',
    final_store (run_rbind store_AB 1%positive [2%positive] cols_fill 3)
      !! 1%positive = Some dt' /\
    exists c, columns dt' !! 2%nat = Some (Some c) /\
              is_NA c 0 /\ is_NA c 1 /\ is_NA c 2.
Proof.
  destruct (rbind_NA_fill Column_extract_spec Column_rbind_spec reify_spec
              reify_spec_nrows reify_spec_ncols Column_rbind_spec_data
              Column_extract_spec_length reify_spec_wf
              store_AB 1%positive [2%positive] cols_fill 3 table_A
              (final_store (run_rbind store_AB 1%positive [2%positive] cols_fill 3)))
    as (dt' & Et & Hcols).
  - reflexivity.
  - vm_compute. reflexivity.
  - exists dt'. split; [exact Et|].
    destruct (Hcols 2%nat) as (c & c0 & blocks & Hc & _ & _ & Hnew & Hblock & Hpos);
      [vm_compute; lia|].
    exists c. split; [exact Hc|].
    destruct Hnew as [_ Hnew]; [vm_compute; discriminate|].
    split; [apply Hnew; reflexivity|]. split; [apply Hnew; reflexivity|].
    destruct (Hblock 0%nat (-1) 2%positive) as [_ Hb]; try reflexivity.
    destruct Hpos as [Hlen0 Hoff].
    { intros p d _. apply store_AB_wf. }
    { intros Hin. apply list_elem_of_singleton in Hin. discriminate. }
    specialize (Hb 0%nat). specialize (Hoff 0%nat).
    rewrite Hlen0, Hoff in Hb. apply Hb. reflexivity.
Defined.


(** *** Further properties of the method *)

Section MoreProperties.

Variable Column_extract : Column -> RowIndex -> option Column.
Variable Column_rbind : Column -> list Column -> option Column.
Variable reify : DataTable -> DataTable.

Abbreviation contribution2 := (contribution Column_extract).
Abbreviation build_cols02 := (build_cols0 Column_extract).
Abbreviation rbind_column2 := (rbind_column Column_extract Column_rbind).
Abbreviation rbind_loop2 := (rbind_loop Column_extract Column_rbind).
Abbreviation prepare2 := (prepare reify).
Abbreviation rbind2 := (DataTable_rbind Column_extract Column_rbind reify).

(** **** The trace of a successful loop *)

Lemma rbind_loop_split (this : loc) (dts : list loc) (cols : list (list Z))
    (l1 l2 : list nat) (i : nat) (h h' : gmap loc DataTable) :
  rbind_loop2 this dts cols h (l1 ++ i :: l2) = Some (h', true) ->
  exists hi hi',
    rbind_loop2 this dts cols h l1 = Some (hi, true) /\
    rbind_column2 this dts cols hi i = Some (Some hi') /\
    rbind_loop2 this dts cols hi' l2 = Some (h', true).
Proof.
  rewrite rbind_loop_app. intros E.
  destruct (rbind_loop2 this dts cols h l1) as [[hi [|]]|] eqn:E1; simpl in E;
    try discriminate.
  destruct (rbind_column2 this dts cols hi i) as [[hi'|]|] eqn:E2; simpl in E;
    try discriminate.
  exists hi, hi'. auto.
Qed.

(** A loop that stops early stopped at the first iteration that failed. *)
Lemma rbind_loop_false (this : loc) (dts : list loc) (cols : list (list Z))
    (ixs : list nat) :
  forall h h',
    rbind_loop2 this dts cols h ixs = Some (h', false) ->
    exists l1 k l2,
      ixs = l1 ++ k :: l2 /\
      rbind_loop2 this dts cols h l1 = Some (h', true) /\
      rbind_column2 this dts cols h' k = Some None.
Proof.
  induction ixs as [|i rest IH]; intros h h' E; simpl in E; [discriminate|].
  destruct (rbind_column2 this dts cols h i) as [[h1|]|] eqn:Ec; simpl in E;
    try discriminate.
  - destruct (IH _ _ E) as (l1 & k & l2 & -> & El & Ek).
    exists (i :: l1), k, l2. split; [reflexivity|]. split; [|assumption].
    simpl. rewrite Ec. simpl. assumption.
  - injection E as <-. exists [], i, rest. auto.
Qed.

Lemma seq_split_at (n k : nat) :
  (k < n)%nat -> seq 0 n = seq 0 k ++ k :: seq (S k) (n - S k).
Proof.
  intros Hk. change (k :: seq (S k) (n - S k)) with (seq k (S (n - S k))).
  rewrite <- seq_app. f_equal. lia.
Qed.

Lemma seq_split_inv (n : nat) (l1 l2 : list nat) (k : nat) :
  seq 0 n = l1 ++ k :: l2 -> (k < n)%nat /\ l1 = seq 0 k.
Proof.
  intros E.
  assert (Hk : seq 0 n !! length l1 = Some k).
  { rewrite E. rewrite lookup_app_r by lia.
    replace (length l1 - length l1)%nat with 0%nat by lia. reflexivity. }
  apply lookup_seq in Hk as [Hk Hlt]. simpl in Hk. subst k.
  split; [assumption|].
  assert (Et : take (length l1) (seq 0 n) = l1).
  { rewrite E. rewrite take_app_length. reflexivity. }
  transitivity (take (length l1) (seq 0 n)); [symmetry; exact Et|].
  rewrite take_seq. f_equal. lia.
Qed.

(** Each column of a successful loop, with the store it was fused in. *)
Lemma rbind_loop_trace (this : loc) (dts : list loc) (cols : list (list Z))
    (ixs : list nat) (h h' : gmap loc DataTable) (dt dt' : DataTable) :
  rbind_loop2 this dts cols h ixs = Some (h', true) ->
  h !! this = Some dt -> h' !! this = Some dt' ->
  NoDup ixs -> (forall i, i ∈ ixs -> (i < length (columns dt))%nat) ->
  forall i, i ∈ ixs ->
    exists hi dti c0 cs ret,
      hi !! this = Some dti /\
      (forall p, p <> this -> hi !! p = h !! p) /\
      ncols dti = ncols dt /\ nrows dti = nrows dt /\
      rowindex dti = rowindex dt /\
      columns dti !! i = columns dt !! i /\
      base_column dti i = Some c0 /\
      build_cols02 hi cols i 0 dts = Some (Some cs) /\
      Column_rbind c0 cs = Some ret /\
      columns dt' !! i = Some (Some ret).
Proof.
  intros E Et Et' Hnd Hlen i Hi.
  apply list_elem_of_split in Hi as (l1 & l2 & ->).
  apply NoDup_app in Hnd as (_ & Hl1 & Hnd2).
  apply NoDup_cons in Hnd2 as [Hl2 _].
  assert (Hil1 : i ∉ l1).
  { intros Hin. apply (Hl1 i Hin). left. }
  apply rbind_loop_split in E as (hi & hi' & E1 & Estep & E2).
  destruct (rbind_loop_frame _ _ _ _ _ _ _ _ _ E1) as [Hfr Hthis].
  destruct (Hthis _ Et) as (dti & Eti & Hnc & Hnr & Hri & Hlen').
  apply rbind_column_Some in Estep as (dt0 & c0 & cs & ret & Et0 & Hb & Hc & Hr & ->).
  assert (dt0 = dti) as -> by congruence.
  exists hi, dti, c0, cs, ret. repeat split; try assumption.
  - apply (rbind_loop_columns_other _ _ _ _ _ _ _ _ _ _ _ E1 Et Eti i Hil1).
  - rewrite (rbind_loop_columns_other _ _ _ _ _ _ _ _ _ _ _ E2
               (lookup_insert_eq _ _ _) Et' i Hl2).
    simpl. apply list_lookup_insert_eq. rewrite Hlen'.
    apply Hlen. apply elem_of_app. right. left.
Qed.

(** **** The part of [cols] the method reads *)

Lemma contribution_cols_ext (h : gmap loc DataTable) (cols cols' : list (list Z))
    (i j : nat) (p : loc) :
  (cols !! i) ≫= (.!! j) = (cols' !! i) ≫= (.!! j) ->
  contribution2 h cols i j p = contribution2 h cols' i j p.
Proof. intros E. unfold contribution. rewrite E. reflexivity. Qed.

Lemma build_cols0_cols_ext (h : gmap loc DataTable) (cols cols' : list (list Z))
    (i : nat) (dts : list loc) :
  forall j,
    (forall k, (k < length dts)%nat ->
       (cols !! i) ≫= (.!! (j + k)%nat) = (cols' !! i) ≫= (.!! (j + k)%nat)) ->
    build_cols02 h cols i j dts = build_cols02 h cols' i j dts.
Proof.
  induction dts as [|p rest IH]; intros j Hext; simpl; [reflexivity|].
  rewrite (contribution_cols_ext h cols cols').
  2:{ specialize (Hext 0%nat). rewrite Nat.add_0_r in Hext. apply Hext. simpl. lia. }
  destruct (contribution2 h cols' i j p) as [[c|]|]; simpl; try reflexivity.
  rewrite IH; [reflexivity|]. intros k Hk.
  replace (S j + k)%nat with (j + S k)%nat by lia. apply Hext. simpl. lia.
Qed.

Lemma rbind_loop_cols_ext (this : loc) (dts : list loc)
    (cols cols' : list (list Z)) (ixs : list nat) :
  (forall i j, i ∈ ixs -> (j < length dts)%nat ->
     (cols !! i) ≫= (.!! j) = (cols' !! i) ≫= (.!! j)) ->
  forall h, rbind_loop2 this dts cols h ixs = rbind_loop2 this dts cols' h ixs.
Proof.
  induction ixs as [|i rest IH]; intros Hext h; simpl; [reflexivity|].
  assert (Ec : rbind_column2 this dts cols h i = rbind_column2 this dts cols' h i).
  { unfold rbind_column.
    rewrite (build_cols0_cols_ext h cols cols'); [reflexivity|].
    intros k Hk. apply Hext; [left | assumption]. }
  rewrite Ec.
  destruct (rbind_column2 this dts cols' h i) as [[h1|]|]; simpl; try reflexivity.
  apply IH. intros i' j Hi' Hj. apply Hext; [right|]; assumption.
Qed.

(** X5 (the part of [cols] that is read).  The method reads [cols] only
    at the entries [cols[i][j]] with [i < ncols__] and [j < ndts]: two
    column maps that agree there give the same result.  In particular,
    with no source table the map is not read at all. *)
Theorem rbind_cols_ext (h : gmap loc DataTable) (this : loc) (dts : list loc)
    (cols cols' : list (list Z)) (ncols__ : Z) :
  (forall i j : nat, (i < Z.to_nat ncols__)%nat -> (j < length dts)%nat ->
     (cols !! i) ≫= (.!! j) = (cols' !! i) ≫= (.!! j)) ->
  rbind2 h this dts cols ncols__ = rbind2 h this dts cols' ncols__.
Proof.
  intros Hext. unfold DataTable_rbind.
  destruct (h !! this) as [dt0|]; simpl; [|reflexivity].
  destruct (negb (ncols dt0 <=? ncols__)); [reflexivity|].
  destruct (sum_nrows _ _ dts) as [nrows__|]; simpl; [|reflexivity].
  rewrite (rbind_loop_cols_ext this dts cols cols'); [reflexivity|].
  intros i j Hi Hj. apply elem_of_seq in Hi. apply Hext; [lia | assumption].
Qed.

Hypothesis reify_nrows : forall dt, nrows (reify dt) = nrows dt.
Hypothesis reify_ncols : forall dt, ncols (reify dt) = ncols dt.

(** What a successful call did, column by column. *)
Lemma rbind_success_inv (h : gmap loc DataTable) (this : loc) (dts : list loc)
    (cols : list (list Z)) (ncols__ : Z) (dt : DataTable)
    (h' : gmap loc DataTable) :
  h !! this = Some dt ->
  rbind2 h this dts cols ncols__ = Some (h', Some this) ->
  exists dtf,
    h' !! this
    = Some (commit dtf ncols__ (nrows dt + sum_Z (map (table_nrows h) dts))) /\
    ncols dt <= ncols__ /\
    rowindex dtf = rowindex (reify dt) /\
    length (columns dtf) = Z.to_nat (ncols__ + 1) /\
    (forall i, (Z.to_nat ncols__ <= i)%nat ->
       columns dtf !! i
       = grow_columns (columns (reify dt)) (ncols dt) ncols__ !! i) /\
    forall i, (i < Z.to_nat ncols__)%nat ->
      exists hi dti c0 cs ret,
        hi !! this = Some dti /\
        (forall p, p <> this -> hi !! p = h !! p) /\
        ncols dti = ncols dt /\ nrows dti = nrows dt /\
        rowindex dti = rowindex (reify dt) /\
        columns dti !! i
        = grow_columns (columns (reify dt)) (ncols dt) ncols__ !! i /\
        base_column dti i = Some c0 /\
        build_cols02 hi cols i 0 dts = Some (Some cs) /\
        Column_rbind c0 cs = Some ret /\
        columns dtf !! i = Some (Some ret).
Proof.
  intros Et E.
  apply rbind_inv in E as (dt0 & nrows__ & h2 & b & Et0 & Hassert & Es & El & Hres).
  assert (dt0 = dt) as -> by congruence.
  destruct Hres as [(_ & _ & ?) | (-> & dtf & Ef & -> & _)]; [discriminate|].
  pose proof (prepare_lookup_this reify h this dt ncols__) as E1.
  rewrite reify_ncols in E1.
  destruct (rbind_loop_frame _ _ _ _ _ _ _ _ _ El) as [Hfr Hthis].
  destruct (Hthis _ E1) as (dtf' & Ef' & Hnc & Hnr & Hri & Hlen).
  assert (dtf' = dtf) as -> by congruence.
  simpl in Hnc, Hnr, Hri, Hlen.
  exists dtf. split; [|split; [assumption|split; [assumption|split; [|split]]]].
  - rewrite lookup_insert_eq. do 2 f_equal.
    apply sum_nrows_spec in Es. rewrite Es.
    rewrite (prepare_table_nrows _ reify_nrows _ _ _ _ _ Et).
    rewrite (table_nrows_lookup _ _ _ Et). f_equal. f_equal.
    apply map_ext. intros p. apply (prepare_table_nrows _ reify_nrows). assumption.
  - rewrite Hlen. unfold grow_columns. apply length_resize.
  - intros i Hi.
    rewrite (rbind_loop_columns_other _ _ _ _ _ _ _ _ _ _ _ El E1 Ef i);
      [reflexivity|].
    rewrite elem_of_seq. lia.
  - intros i Hi.
    destruct (rbind_loop_trace _ _ _ _ _ _ _ _ El E1 Ef) with (i := i)
      as (hi & dti & c0 & cs & ret & Hti & Hfri & Hnci & Hnri & Hrii & Hcoli & Hrest).
    { apply NoDup_seq. }
    { intros i' Hi'. apply elem_of_seq in Hi'. simpl.
      unfold grow_columns. rewrite length_resize. lia. }
    { apply elem_of_seq. lia. }
    exists hi, dti, c0, cs, ret. simpl in Hnci, Hnri, Hrii, Hcoli.
    split; [assumption|]. split.
    { intros p Hp. rewrite Hfri by assumption.
      apply prepare_lookup_other. assumption. }
    split; [rewrite Hnci; apply reify_ncols|].
    split; [rewrite Hnri; apply reify_nrows|].
    split; [assumption|]. split; [assumption|]. assumption.
Qed.

Lemma grow_columns_lookup_ge (cs : list (option Column)) (nc nc__ : Z) (i : nat)
    (c : Column) :
  nc <= nc__ -> (Z.to_nat nc__ <= i)%nat ->
  grow_columns cs nc nc__ !! i <> Some (Some c).
Proof.
  intros Hnc Hi E. unfold grow_columns in E.
  assert (Hlt : (i < Z.to_nat (nc__ + 1))%nat).
  { apply lookup_lt_Some in E. rewrite length_resize in E. assumption. }
  rewrite lookup_resize_new in E; [discriminate | | assumption].
  rewrite length_take. lia.
Qed.

(** X1 (column-count law and shape of the column array).  After a
    successful call the receiver has [ncols = ncols__], which is at least
    its prior [ncols]; its column array has [ncols__ + 1] slots, every
    slot before [ncols__] holds a column, and every slot from [ncols__] on
    is null, the terminator included; its row index is the one [reify()]
    left. *)
Theorem rbind_column_count (h : gmap loc DataTable) (this : loc)
    (dts : list loc) (cols : list (list Z)) (ncols__ : Z) (dt : DataTable)
    (h' : gmap loc DataTable) :
  h !! this = Some dt ->
  rbind2 h this dts cols ncols__ = Some (h', Some this) ->
  exists dt',
    h' !! this = Some dt' /\
    ncols dt' = ncols__ /\ ncols dt <= ncols__ /\
    rowindex dt' = rowindex (reify dt) /\
    length (columns dt') = Z.to_nat (ncols__ + 1) /\
    (forall i, (i < Z.to_nat ncols__)%nat ->
       exists c, columns dt' !! i = Some (Some c)) /\
    (forall i, (Z.to_nat ncols__ <= i < Z.to_nat (ncols__ + 1))%nat ->
       columns dt' !! i = Some None).
Proof.
  intros Et E.
  destruct (rbind_success_inv _ _ _ _ _ _ _ Et E)
    as (dtf & Ef & Hassert & Hri & Hlen & Hhigh & Hlow).
  eexists. split; [exact Ef|]. simpl.
  split; [reflexivity|]. split; [assumption|]. split; [assumption|].
  split; [assumption|]. split.
  - intros i Hi. destruct (Hlow i Hi) as (hi & dti & c0 & cs & ret & H).
    exists ret. apply H.
  - intros i [Hi1 Hi2].
    destruct (columns dtf !! i) as [[c|]|] eqn:Ec.
    + exfalso. rewrite Hhigh in Ec by assumption.
      exact (grow_columns_lookup_ge _ _ _ _ _ Hassert Hi1 Ec).
    + reflexivity.
    + apply lookup_ge_None in Ec. lia.
Qed.

(** **** When the call is defined *)

Lemma sum_nrows_ext (h1 h2 : gmap loc DataTable) (dts : list loc) :
  (forall p, p ∈ dts -> h1 !! p = h2 !! p) ->
  forall acc, sum_nrows h1 acc dts = sum_nrows h2 acc dts.
Proof.
  induction dts as [|p rest IH]; intros Hext acc; simpl; [reflexivity|].
  rewrite (Hext p) by left.
  destruct (h2 !! p) as [d|]; simpl; [|reflexivity].
  destruct (int64_ok (acc + nrows d)); [|reflexivity].
  apply IH. intros q Hq. apply Hext. right. assumption.
Qed.

Lemma build_cols0_defined (h : gmap loc DataTable) (cols : list (list Z))
    (i : nat) (dts : list loc) :
  forall j,
    (forall k p, dts !! k = Some p -> entry_ok h cols i (j + k) p) ->
    is_Some (build_cols02 h cols i j dts).
Proof.
  induction dts as [|p rest IH]; intros j Hok; simpl; [eauto|].
  destruct (Hok 0%nat p eq_refl) as (x & dtp & Hx & Ep & Hcol).
  rewrite Nat.add_0_r in Hx.
  assert (Hc : is_Some (contribution2 h cols i j p)).
  { unfold contribution. rewrite Hx. simpl. rewrite Ep. simpl.
    destruct (x <? 0) eqn:Ex; [eauto|].
    apply Z.ltb_ge in Ex. destruct (Hcol Ex) as [c ->]. simpl.
    destruct (rowindex dtp); eauto. }
  destruct Hc as [[c|] ->]; simpl; [|eauto].
  destruct (IH (S j)) as [r ->]; [|simpl; eauto].
  intros k q Hq. replace (S j + k)%nat with (j + S k)%nat by lia.
  apply Hok. assumption.
Qed.

Lemma base_column_store_other (dt : DataTable) (k i : nat) (ret : Column) :
  i <> k -> base_column (store_column dt k ret) i = base_column dt i.
Proof.
  intros Hik. unfold base_column. simpl.
  rewrite list_lookup_insert_ne by congruence. reflexivity.
Qed.

Lemma rbind_loop_defined (this : loc) (dts : list loc) (cols : list (list Z))
    (ixs : list nat) :
  this ∉ dts ->
  forall h dt,
    h !! this = Some dt -> NoDup ixs ->
    (forall i, i ∈ ixs -> is_Some (base_column dt i)) ->
    (forall i k p, i ∈ ixs -> dts !! k = Some p -> entry_ok h cols i k p) ->
    is_Some (rbind_loop2 this dts cols h ixs).
Proof.
  intros Hna. induction ixs as [|i rest IH]; intros h dt Et Hnd Hbase Hok;
    simpl; [eauto|].
  apply NoDup_cons in Hnd as [Hi Hnd].
  unfold rbind_column. rewrite Et. simpl.
  destruct (build_cols0_defined h cols i dts 0%nat) as [[cs|] ->]; simpl;
    [ | | eauto].
  { intros k p Hp. simpl. apply Hok; [left | assumption]. }
  destruct (Hbase i) as [c0 ->]; [left|]. simpl.
  destruct (Column_rbind c0 cs) as [ret|]; simpl; [|eauto].
  apply (IH _ (store_column dt i ret)).
  - apply lookup_insert_eq.
  - assumption.
  - intros i' Hi'. rewrite base_column_store_other.
    + apply Hbase. right. assumption.
    + intros ->. contradiction.
  - intros i' k p Hi' Hp.
    destruct (Hok i' k p) as (x & dtp & Hx & Ep & Hcol); [right; assumption | assumption |].
    exists x, dtp. split; [assumption|]. split; [|assumption].
    rewrite lookup_insert_ne; [assumption|].
    intros ->. apply Hna. eapply list_elem_of_lookup_2. eassumption.
Qed.

Lemma grow_columns_lookup_lt (cs : list (option Column)) (nc nc__ : Z) (i : nat)
    (v : option Column) :
  Z.of_nat i < nc -> nc <= nc__ -> cs !! i = Some v ->
  grow_columns cs nc nc__ !! i = Some v.
Proof.
  intros Hi Hnc E. unfold grow_columns.
  assert (Hlt : (i < length cs)%nat) by (eapply lookup_lt_Some; eassumption).
  rewrite lookup_resize.
  - rewrite lookup_take_lt by lia. assumption.
  - lia.
  - rewrite length_take. lia.
Qed.


(** **** Where the rows of a result column come from *)

Hypothesis Column_rbind_data : forall c cs ret,
  Column_rbind c cs = Some ret -> data ret = data c ++ concat (map data cs).

(** A contribution for a non-negative entry of [cols] is the named column
    of the source, with the source's row index applied when it has one. *)
Lemma contribution_nonneg (h : gmap loc DataTable) (cols : list (list Z))
    (i j : nat) (p : loc) (x : Z) (c : Column) :
  (cols !! i) ≫= (.!! j) = Some x -> 0 <= x ->
  contribution2 h cols i j p = Some (Some c) ->
  exists dtp src,
    h !! p = Some dtp /\
    columns dtp !! Z.to_nat x = Some (Some src) /\
    match rowindex dtp with
    | None => c = src
    | Some ri => Column_extract src ri = Some c
    end.
Proof.
  unfold contribution. intros -> Hx E. simpl in E.
  destruct (h !! p) as [dtp|] eqn:Ep; simpl in E; [|discriminate].
  replace (x <? 0) with false in E by (symmetry; apply Z.ltb_ge; assumption).
  destruct (columns dtp !! Z.to_nat x) as [[src|]|] eqn:Ecol; simpl in E;
    try discriminate.
  exists dtp, src. split; [reflexivity|]. split; [assumption|].
  destruct (rowindex dtp); injection E as E; auto.
Qed.

Lemma base_column_old (dt : DataTable) (i : nat) (c0 : Column) :
  Z.of_nat i < ncols dt -> base_column dt i = Some c0 ->
  columns dt !! i = Some (Some c0).
Proof.
  intros Hi. unfold base_column.
  replace (Z.of_nat i <? ncols dt) with true by (symmetry; apply Z.ltb_lt; assumption).
  destruct (columns dt !! i) as [[c|]|]; simpl; intros E; try discriminate.
  injection E as ->. reflexivity.
Qed.

(** X2 (order preservation).  Let the receiver not be one of its own
    sources.  After a successful call every result column [i] has the
    rows of a base column followed by one block per source, in source
    order.  For [i] below the receiver's prior [ncols] the base is the
    receiver's own column [i] as [reify()] left it.  For every source [j]
    with [cols[i][j] >= 0], block [j] is column [cols[i][j]] of that
    source, with the source's row index applied by [Column::extract] when
    the source has one. *)
Theorem rbind_order_preservation (h : gmap loc DataTable) (this : loc)
    (dts : list loc) (cols : list (list Z)) (ncols__ : Z) (dt : DataTable)
    (h' : gmap loc DataTable) :
  this ∉ dts ->
  h !! this = Some dt ->
  rbind2 h this dts cols ncols__ = Some (h', Some this) ->
  exists dt',
    h' !! this = Some dt' /\
    forall i : nat, (i < Z.to_nat ncols__)%nat ->
      exists c c0 blocks,
        columns dt' !! i = Some (Some c) /\
        data c = data c0 ++ concat (map data blocks) /\
        length blocks = length dts /\
        (Z.of_nat i < ncols dt -> columns (reify dt) !! i = Some (Some c0)) /\
        forall (j : nat) (x : Z) (p : loc),
          (cols !! i) ≫= (.!! j) = Some x -> 0 <= x -> dts !! j = Some p ->
          exists dtp src,
            h !! p = Some dtp /\
            columns dtp !! Z.to_nat x = Some (Some src) /\
            match rowindex dtp with
            | None => blocks !! j = Some src
            | Some ri => blocks !! j = Column_extract src ri /\
                         is_Some (Column_extract src ri)
            end.
Proof.
  intros Hna Et E.
  destruct (rbind_success_inv _ _ _ _ _ _ _ Et E)
    as (dtf & Ef & Hassert & Hri & Hlen & Hhigh & Hlow).
  eexists. split; [exact Ef|]. simpl. intros i Hi.
  destruct (Hlow i Hi)
    as (hi & dti & c0 & cs & ret & Hti & Hfr & Hnc & Hnr & Hrii & Hcol & Hb & Hc & Hr & Hret).
  destruct (build_cols0_lookup _ _ _ _ _ _ _ Hc) as [Hlenb Hk].
  exists ret, c0, cs. split; [assumption|].
  split; [apply Column_rbind_data; assumption|]. split; [assumption|]. split.
  - intros Hold. rewrite <- Hnc in Hold.
    apply (base_column_old _ _ _ Hold) in Hb. rewrite Hcol in Hb.
    apply grow_columns_lookup in Hb. assumption.
  - intros j x p Hx Hpos Hj.
    assert (exists c, cs !! j = Some c) as [c Hcj].
    { apply lookup_lt_is_Some. rewrite Hlenb. eapply lookup_lt_Some. eassumption. }
    pose proof (Hk _ _ _ Hj Hcj) as Hcontr. simpl in Hcontr.
    destruct (contribution_nonneg _ _ _ _ _ _ _ Hx Hpos Hcontr)
      as (dtp & src & Ep & Esrc & Hblock).
    assert (Hp : p <> this).
    { intros ->. apply Hna. eapply list_elem_of_lookup_2. eassumption. }
    rewrite Hfr in Ep by assumption.
    exists dtp, src. split; [assumption|]. split; [assumption|].
    destruct (rowindex dtp).
    + rewrite Hblock. split; [assumption | eauto].
    + subst c. assumption.
Qed.

(** **** Appending a table to itself *)

(** X7 (self-append).  Let the receiver have no row index, so that
    [reify()] leaves it as it is, and let it be its own single source
    with the identity column map.  After a successful call every column
    of the receiver is the fusion of the old column with itself, so it
    holds the old rows twice, and [nrows] has doubled: iteration [i]
    reads column [i] before it writes it. *)
Theorem rbind_self_append (h : gmap loc DataTable) (this : loc)
    (cols : list (list Z)) (dt : DataTable) (h' : gmap loc DataTable) :
  h !! this = Some dt -> rowindex dt = None -> reify dt = dt ->
  (forall i : nat, Z.of_nat i < ncols dt ->
     (cols !! i) ≫= (.!! 0%nat) = Some (Z.of_nat i)) ->
  rbind2 h this [this] cols (ncols dt) = Some (h', Some this) ->
  exists dt',
    h' !! this = Some dt' /\
    nrows dt' = 2 * nrows dt /\ ncols dt' = ncols dt /\
    forall i : nat, Z.of_nat i < ncols dt ->
      exists c ret,
        columns dt !! i = Some (Some c) /\
        columns dt' !! i = Some (Some ret) /\
        Column_rbind c [c] = Some ret /\
        data ret = data c ++ data c.
Proof.
  intros Et Hri Hid Hcols E.
  destruct (rbind_success_inv _ _ _ _ _ _ _ Et E)
    as (dtf & Ef & Hassert & Hrif & Hlen & Hhigh & Hlow).
  eexists. split; [exact Ef|]. simpl. split; [|split; [reflexivity|]].
  - rewrite (table_nrows_lookup _ _ _ Et). lia.
  - intros i Hi.
    destruct (Hlow i)
      as (hi & dti & c0 & cs & ret & Hti & Hfr & Hnc & Hnr & Hrii & Hcol & Hb & Hc & Hr & Hret);
      [lia|].
    rewrite Hid in Hrii, Hcol. rewrite <- Hnc in Hi.
    apply (base_column_old _ _ _ Hi) in Hb.
    assert (Hold : columns dt !! i = Some (Some c0)).
    { rewrite Hcol in Hb. apply grow_columns_lookup in Hb. assumption. }
    assert (cs = [c0]) as ->.
    { simpl in Hc. unfold contribution in Hc.
      rewrite Hcols in Hc by lia. simpl in Hc. rewrite Hti in Hc. simpl in Hc.
      replace (Z.of_nat i <? 0) with false in Hc by (symmetry; apply Z.ltb_ge; lia).
      rewrite Nat2Z.id, Hb in Hc. simpl in Hc.
      rewrite Hrii, Hri in Hc. simpl in Hc. congruence. }
    exists c0, ret. repeat split; try assumption.
    rewrite (Column_rbind_data _ _ _ Hr). simpl. rewrite app_nil_r. reflexivity.
Qed.

(** **** The table invariant *)

Hypothesis Column_extract_length : forall c ri c',
  Column_extract c ri = Some c' -> length (data c') = RowIndex_length ri.
Hypothesis reify_wf : forall dt,
  wf_table dt -> wf_table (reify dt) /\ rowindex (reify dt) = None.

(** X3 (the table invariant is kept).  Let the receiver and the sources
    satisfy the table invariant, the receiver not being one of its own
    sources.  After a successful call the receiver satisfies the
    invariant again: it has no row index and each of its columns has
    exactly the new [nrows] rows. *)
Theorem rbind_preserves_invariant (h : gmap loc DataTable) (this : loc)
    (dts : list loc) (cols : list (list Z)) (ncols__ : Z) (dt : DataTable)
    (h' : gmap loc DataTable) :
  (forall p d, p ∈ this :: dts -> h !! p = Some d -> wf_table d) ->
  this ∉ dts ->
  h !! this = Some dt ->
  rbind2 h this dts cols ncols__ = Some (h', Some this) ->
  exists dt',
    h' !! this = Some dt' /\ wf_table dt' /\ rowindex dt' = None /\
    forall i : nat, (i < Z.to_nat ncols__)%nat ->
      exists c, columns dt' !! i = Some (Some c) /\
                Z.of_nat (length (data c)) = nrows dt'.
Proof.
  intros Hwf Hna Et E.
  destruct (rbind_success_inv _ _ _ _ _ _ _ Et E)
    as (dtf & Ef & Hassert & Hri & Hlen & Hhigh & Hlow).
  assert (Hwft : wf_table dt) by (apply (Hwf this); [left | assumption]).
  destruct (reify_wf dt Hwft) as [[_ Hwfr] Hnone]. rewrite Hnone in Hwfr.
  assert (Hcolumn : forall i, (i < Z.to_nat ncols__)%nat ->
            exists c, columns dtf !! i = Some (Some c) /\
              0 <= sum_Z (map (table_nrows h) dts) /\
              length (data c)
              = Z.to_nat (nrows dt + sum_Z (map (table_nrows h) dts))).
  { intros i Hi.
    destruct (Hlow i Hi)
      as (hi & dti & c0 & cs & ret & Hti & Hfr & Hnc & Hnr & Hrii & Hcol & Hb & Hc & Hr & Hret).
    destruct (build_cols0_lookup _ _ _ _ _ _ _ Hc) as [Hlenb Hk].
    exists ret. split; [assumption|].
    assert (Hlen0 : length (data c0) = Z.to_nat (nrows dt)).
    { destruct (Z.of_nat i <? ncols dti) eqn:Eold.
      - apply Z.ltb_lt in Eold.
        apply (base_column_old _ _ _ Eold) in Hb. rewrite Hcol in Hb.
        apply grow_columns_lookup in Hb. rewrite <- (reify_nrows dt).
        eapply Hwfr. eassumption.
      - unfold base_column in Hb. rewrite Eold in Hb. injection Hb as <-.
        simpl. rewrite Hnr. apply length_replicate. }
    assert (HF : Forall2 (fun q c => 0 <= table_nrows h q /\
                            length (data c) = Z.to_nat (table_nrows h q)) dts cs).
    { apply Forall2_same_length_lookup. split; [symmetry; assumption|].
      intros k q c Hq Hcq.
      assert (Hin : q ∈ dts) by (eapply list_elem_of_lookup_2; eassumption).
      assert (Hqt : q <> this) by (intros ->; contradiction).
      pose proof (Hk _ _ _ Hq Hcq) as Hcontr. simpl in Hcontr.
      rewrite (contribution_ext _ _ h) in Hcontr by (apply Hfr; assumption).
      assert (exists d, h !! q = Some d) as [d Hd].
      { unfold contribution in Hcontr.
        destruct ((cols !! i) ≫= (.!! k)); simpl in Hcontr; [|discriminate].
        destruct (h !! q); [eauto | discriminate]. }
      assert (Hwfd : wf_table d) by (apply (Hwf q); [right|]; assumption).
      split.
      - rewrite (table_nrows_lookup _ _ _ Hd). apply Hwfd.
      - eapply contribution_length; eassumption. }
    destruct (length_concat_take _ _ _ HF (length dts)) as [Hnn Hoff].
    rewrite firstn_all in Hnn, Hoff.
    rewrite take_ge in Hoff by (rewrite length_map; lia).
    split; [assumption|].
    rewrite (Column_rbind_data _ _ _ Hr), length_app, Hlen0, Hoff.
    destruct Hwft. lia. }
  eexists. split; [exact Ef|]. split; [|split].
  - split; simpl.
    + destruct Hwft as [Hnn _].
      destruct dts as [|p rest].
      * simpl. lia.
      * destruct (decide (0 < Z.to_nat ncols__)%nat) as [Hpos|Hzero].
        -- destruct (Hcolumn 0%nat Hpos) as (c & _ & Hs & _). lia.
        -- (* no result column: the sources' row counts are still counted *)
           assert (Hall : Forall (fun q => 0 <= table_nrows h q) (p :: rest)).
           { apply Forall_forall. intros q Hq. unfold table_nrows.
             destruct (h !! q) as [d|] eqn:Ed; simpl; [|lia].
             apply (Hwf q d); [right; assumption | assumption]. }
           assert (0 <= sum_Z (map (table_nrows h) (p :: rest))); [|lia].
           clear -Hall. induction Hall as [|q l Hq _ IH]; simpl in *; lia.
    + rewrite Hri, Hnone. intros i c Hc.
      destruct (decide (i < Z.to_nat ncols__)%nat) as [Hlt|Hge].
      * destruct (Hcolumn i Hlt) as (c' & Hc' & _ & Hlenc). congruence.
      * exfalso. rewrite Hhigh in Hc by lia.
        eapply grow_columns_lookup_ge; [exact Hassert | | exact Hc]. lia.
  - simpl. rewrite Hri. assumption.
  - intros i Hi. destruct (Hcolumn i Hi) as (c & Hc & Hs & Hlenc).
    exists c. split; [assumption|]. simpl. rewrite Hlenc.
    destruct Hwft. lia.
Qed.

(** X6 (when NULL is returned).  A call with a defined result returns
    either [this] or [NULL], and it returns [NULL] exactly when the
    iterations for the columns before some [k < ncols__] succeeded and
    the iteration for column [k] found a null contribution or a null
    fusion; the store it leaves is then the one that iteration started
    from. *)
Theorem rbind_null_iff (h : gmap loc DataTable) (this : loc) (dts : list loc)
    (cols : list (list Z)) (ncols__ : Z) (dt : DataTable)
    (h' : gmap loc DataTable) (r : option loc) :
  h !! this = Some dt ->
  rbind2 h this dts cols ncols__ = Some (h', r) ->
  (r = None \/ r = Some this) /\
  (r = None <->
   exists k, (k < Z.to_nat ncols__)%nat /\
     rbind_loop2 this dts cols (prepare2 h this dt ncols__) (seq 0 k)
       = Some (h', true) /\
     rbind_column2 this dts cols h' k = Some None).
Proof.
  intros Et E.
  apply rbind_inv in E as (dt0 & nrows__ & h2 & b & Et0 & _ & _ & El & Hres).
  assert (dt0 = dt) as -> by congruence.
  destruct Hres as [(-> & -> & ->) | (-> & dtf & Ef & -> & ->)].
  - split; [left; reflexivity|]. split; [|reflexivity]. intros _.
    apply rbind_loop_false in El as (l1 & k & l2 & Eseq & El1 & Ek).
    apply seq_split_inv in Eseq as [Hk ->]. eauto.
  - split; [right; reflexivity|]. split; [discriminate|].
    intros (k & Hk & Epre & Efail). exfalso.
    rewrite (seq_split_at _ _ Hk) in El.
    apply rbind_loop_split in El as (hi & hi' & Epre' & Estep & _).
    rewrite Epre in Epre'. injection Epre' as <-. congruence.
Qed.

End MoreProperties.

(** **** The further properties on concrete tables *)

Lemma rbind_null_iff_witness :
  (@None loc = None \/ @None loc = Some 1%positive) /\
  (@None loc = None <->
   exists k, (k < Z.to_nat 2)%nat /\
     rbind_loop Column_extract_spec Column_rbind_spec 1%positive [2%positive]
       cols_clash (prepare reify_spec store_AB 1%positive table_A 2) (seq 0 k)
     = Some (final_store (run_rbind store_AB 1%positive [2%positive] cols_clash 2),
             true) /\
     rbind_column Column_extract_spec Column_rbind_spec 1%positive [2%positive]
       cols_clash
       (final_store (run_rbind store_AB 1%positive [2%positive] cols_clash 2)) k
     = Some None).
Proof.
  apply (rbind_null_iff Column_extract_spec Column_rbind_spec reify_spec
           store_AB 1%positive [2%positive] cols_clash 2 table_A).
  - reflexivity.
  - vm_compute. reflexivity.
Defined.

Lemma rbind_column_count_witness :
  exists dt',
    final_store (run_rbind store_AB 1%positive [2%positive] cols_fill 3)
      !! 1%positive = Some dt' /\
    ncols dt' = 3 /\ ncols table_A <= 3 /\
    rowindex dt' = rowindex (reify_spec table_A) /\
    length (columns dt') = Z.to_nat (3 + 1) /\
    (forall i, (i < Z.to_nat 3)%nat ->
       exists c, columns dt' !! i = Some (Some c)) /\
    (forall i, (Z.to_nat 3 <= i < Z.to_nat (3 + 1))%nat ->
       columns dt' !! i = Some None).
Proof.
  apply (rbind_column_count Column_extract_spec Column_rbind_spec reify_spec
           reify_spec_nrows reify_spec_ncols
           store_AB 1%positive [2%positive] cols_fill 3 table_A).
  - reflexivity.
  - vm_compute. reflexivity.
Defined.

Lemma not_elem_of_12 : 1%positive ∉ [2%positive].
Proof. intros Hin. apply list_elem_of_singleton in Hin. discriminate. Qed.

Lemma rbind_order_preservation_witness :
  exists dt',
    final_store (run_rbind store_AB 1%positive [2%positive] cols_fill 3)
      !! 1%positive = Some dt' /\
    exists c, columns dt' !! 0%nat = Some (Some c) /\
              data c = [Some 10; Some 20; Some 30].
Proof.
  destruct (rbind_order_preservation Column_extract_spec Column_rbind_spec reify_spec
              reify_spec_nrows reify_spec_ncols Column_rbind_spec_data
              store_AB 1%positive [2%positive] cols_fill 3 table_A
              (final_store (run_rbind store_AB 1%positive [2%positive] cols_fill 3)))
    as (dt' & Et & Hcols).
  - exact not_elem_of_12.
  - reflexivity.
  - vm_compute. reflexivity.
  - exists dt'. split; [exact Et|].
    destruct (Hcols 0%nat) as (c & c0 & blocks & Hc & _); [vm_compute; lia|].
    exists c. split; [exact Hc|].
    vm_compute in Et. injection Et as <-. vm_compute in Hc.
    injection Hc as <-. reflexivity.
Defined.

Lemma rbind_preserves_invariant_witness :
  exists dt',
    final_store (run_rbind store_AB 1%positive [2%positive] cols_fill 3)
      !! 1%positive = Some dt' /\ wf_table dt' /\ rowindex dt' = None /\
    forall i : nat, (i < Z.to_nat 3)%nat ->
      exists c, columns dt' !! i = Some (Some c) /\
                Z.of_nat (length (data c)) = nrows dt'.
Proof.
  apply (rbind_preserves_invariant Column_extract_spec Column_rbind_spec reify_spec
           reify_spec_nrows reify_spec_ncols Column_rbind_spec_data
           Column_extract_spec_length reify_spec_wf
           store_AB 1%positive [2%positive] cols_fill 3 table_A).
  - intros p d _. apply store_AB_wf.
  - exact not_elem_of_12.
  - reflexivity.
  - vm_compute. reflexivity.
Defined.

Lemma rbind_self_append_witness :
  exists dt',
    final_store (run_rbind store_AB 1%positive [1%positive] cols_clash (ncols table_A))
      !! 1%positive = Some dt' /\
    nrows dt' = 2 * nrows table_A /\ ncols dt' = ncols table_A /\
    forall i : nat, Z.of_nat i < ncols table_A ->
      exists c ret,
        columns table_A !! i = Some (Some c) /\
        columns dt' !! i = Some (Some ret) /\
        Column_rbind_spec c [c] = Some ret /\
        data ret = data c ++ data c.
Proof.
  apply (rbind_self_append Column_extract_spec Column_rbind_spec reify_spec
           reify_spec_nrows reify_spec_ncols Column_rbind_spec_data
           store_AB 1%positive cols_clash table_A).
  - reflexivity.
  - reflexivity.
  - reflexivity.
  - intros [|[|i]] Hi; try reflexivity.
    exfalso. change (ncols table_A) with 2 in Hi. lia.
  - vm_compute. reflexivity.
Defined.

Lemma rbind_cols_ext_witness :
  run_rbind store_AB 1%positive [2%positive] cols_fill 3
  = run_rbind store_AB 1%positive [2%positive] [[0; 5]; [-1]; [-1; 1]; [4]] 3.
Proof.
  apply (rbind_cols_ext Column_extract_spec Column_rbind_spec reify_spec
           store_AB 1%positive [2%positive] cols_fill
           [[0; 5]; [-1]; [-1; 1]; [4]] 3).
  intros [|[|[|i]]] [|j] Hi Hj; try reflexivity; simpl in Hi, Hj; lia.
Defined.


End RbindFacts.

(* ===================================================================== *)
(** ** Part IV: properties of the [Cut] column                             *)
(* ===================================================================== *)

Module CutFacts.

Import Cut.
Local Open Scope Z_scope.

Section Generic.

Context {D T : Type} `{DoubleOps D} `{Elem D T}.

(** C4 (degenerate statistics).  When the [Min] statistic is invalid, or
    the [Max] statistic is invalid, or one of them is infinite, or
    [nbins] is 0, the factory returns the constant-NA column of type
    [INT32] with the row count of the source; every element of the
    result is NA and no bin id is written. *)
Theorem make_degenerate (col : Column T) (nbins : N) (right_closed : bool) :
  fst (get_stat col Min) = false \/ fst (get_stat col Max) = false \/
  _isinf (snd (get_stat col Min)) = true \/
  _isinf (snd (get_stat col Max)) = true \/ nbins = 0%N ->
  make col nbins right_closed = ConstNa_ColumnImpl (nrows col) INT32 /\
  forall i, get_element (make col nbins right_closed) i = (None, false).
Proof.
  intros Hdeg.
  assert (E : make col nbins right_closed = ConstNa_ColumnImpl (nrows col) INT32).
  { unfold make.
    destruct (get_stat col Min) as [min_valid tmin].
    destruct (get_stat col Max) as [max_valid tmax]. simpl in Hdeg.
    destruct Hdeg as [-> | [-> | [-> | [-> | ->]]]]; simpl;
      rewrite ?orb_true_r; reflexivity. }
  split; [exact E|]. intros i. rewrite E. reflexivity.
Qed.

(** C10 (shape of the result).  In both branches of the factory the
    returned implementation has the row count of the input column and
    the storage type [INT32]. *)
Theorem make_nrows_stype (col : Column T) (nbins : N) (right_closed : bool) :
  impl_nrows (make col nbins right_closed) = nrows col /\
  impl_stype (make col nbins right_closed) = INT32.
Proof.
  unfold make.
  destruct (get_stat col Min) as [min_valid tmin].
  destruct (get_stat col Max) as [max_valid tmax].
  destruct (negb min_valid || negb max_valid || _isinf tmin || _isinf tmax
            || (nbins =? 0)%N).
  - split; reflexivity.
  - destruct (set_cut_coeffs (to_double tmin) (to_double tmax) nbins right_closed)
      as [[a b] shift].
    split; reflexivity.
Qed.

End Generic.

Section Validity.

Context {D : Type} `{DoubleOps D}.

(** C6 (validity propagation).  For every row and all coefficients the
    flag [get_element] returns is the flag the child returned for that
    row: an invalid child element gives an invalid output, a valid one a
    valid output. *)
Theorem get_element_validity (col_ : Column D) (a b : D) (shift : option Z)
    (i : N) :
  snd (get_element (Cut_ColumnImpl col_ a b shift) i) = fst (element col_ i).
Proof.
  cbn [get_element]. unfold Cut_get_element.
  destruct (element col_ i) as [is_valid value]. reflexivity.
Qed.

End Validity.

(** **** Binary64 arithmetic *)

Lemma one_minus_epsilon :
  SFadd prec emax (SF_of_Z 1) (SFmul prec emax (SF_of_Z (1 - 2 * 1)) (SF_pow2 (-23)))
  = SFsub prec emax (SF_of_Z 1) (SF_pow2 (-23)).
Proof. vm_compute. reflexivity. Qed.

Lemma one_plus_epsilon :
  SFadd prec emax (SF_of_Z 1) (SFmul prec emax (SF_of_Z (1 - 2 * 0)) (SF_pow2 (-23)))
  = SFadd prec emax (SF_of_Z 1) (SF_pow2 (-23)).
Proof. vm_compute. reflexivity. Qed.

Lemma int32_of_size_small (n : N) :
  Z.of_N n < 2 ^ 31 -> int32_of_size n = Z.of_N n.
Proof.
  intros Hn. unfold int32_of_size.
  rewrite Z.mod_small by lia. lia.
Qed.

(** The shift of the branch [!right_closed], [static_cast<int32_t>(nbins)
    - 1]: it is [nbins - 1] for [nbins < 2^31]; it is undefined exactly
    when [nbins] is [2^31] modulo [2^32], where the converted value is
    [INT32_MIN]; otherwise it is the [int32_t] congruent to [nbins - 1]
    modulo [2^32]. *)
Lemma shift_value (nbins : N) :
  let shift := int32_checked (int32_of_size nbins - 1) in
  (Z.of_N nbins < 2 ^ 31 -> shift = Some (Z.of_N nbins - 1)) /\
  (shift = None <-> Z.of_N nbins mod 2 ^ 32 = 2 ^ 31) /\
  (forall s, shift = Some s ->
     - 2 ^ 31 <= s < 2 ^ 31 /\ (s - (Z.of_N nbins - 1)) mod 2 ^ 32 = 0).
Proof.
  cbv zeta. unfold int32_checked, in_int32, int32_of_size.
  set (n := Z.of_N nbins). assert (Hn : 0 <= n) by (subst n; lia). clearbody n.
  change (2 ^ 31) with 2147483648. change (2 ^ 32) with 4294967296.
  pose proof (Z.mod_pos_bound (n + 2147483648) 4294967296 ltac:(lia)) as Hr.
  pose proof (Z.div_mod (n + 2147483648) 4294967296 ltac:(lia)) as Hq.
  pose proof (Z.mod_pos_bound n 4294967296 ltac:(lia)) as Hr'.
  pose proof (Z.div_mod n 4294967296 ltac:(lia)) as Hq'.
  set (r := (n + 2147483648) mod 4294967296) in *.
  set (q := (n + 2147483648) / 4294967296) in *.
  set (r' := n mod 4294967296) in *.
  set (q' := n / 4294967296) in *.
  destruct (Z.leb_spec (- (2147483648)) (r - 2147483648 - 1)) as [H1|H1];
    destruct (Z.ltb_spec (r - 2147483648 - 1) 2147483648) as [H2|H2];
    cbn [andb]; try lia.
  - split; [|split].
    + intros Hlt. f_equal. lia.
    + split; [discriminate|]. intros Hm. lia.
    + intros s [= <-]. split; [lia|].
      replace (r - 2147483648 - 1 - (n - 1)) with ((- q) * 4294967296) by lia.
      apply Z.mod_mul. lia.
  - split; [|split].
    + intros Hlt. lia.
    + split; [intros _; lia | reflexivity].
    + intros s [=].
Qed.

(** C5, as amended (coefficients).  In binary64 arithmetic, in the order
    the code evaluates, [set_cut_coeffs] yields: for [min == max],
    [a = 0], [shift = 0] and [b = (0.5 * nbins) * (1 - eps)] when
    [right_closed], [b = (0.5 * nbins) * (1 + eps)] otherwise; for
    [min != max], [a = ((1 - eps) * nbins) / (max - min)] and
    [b = -a * min] with [shift = 0] when [right_closed], and
    [b = -a * min + (eps - 1) * nbins] with
    [shift = static_cast<int32_t>(nbins) - 1] otherwise.  That shift is
    [nbins - 1] whenever [nbins < 2^31]; it has no defined value exactly
    when [nbins] is [2^31] modulo [2^32]; in every other case it is the
    [int32_t] congruent to [nbins - 1] modulo [2^32]. *)
Theorem set_cut_coeffs_formula (min max : spec_float) (nbins : N)
    (right_closed : bool) :
  let n := SF_of_Z (Z.of_N nbins) in
  let one := SF_of_Z 1 in
  let eps := SF_pow2 (-23) in
  let a := SFdiv prec emax (SFmul prec emax (SFsub prec emax one eps) n)
                           (SFsub prec emax max min) in
  exists shift : option Z,
    set_cut_coeffs min max nbins right_closed
    = (if SFeqb min max
       then (SF_of_Z 0,
             SFmul prec emax (SFmul prec emax (SF_pow2 (-1)) n)
                   (if right_closed then SFsub prec emax one eps
                    else SFadd prec emax one eps),
             Some 0)
       else if right_closed
            then (a, SFmul prec emax (SFopp a) min, Some 0)
            else (a,
                  SFadd prec emax (SFmul prec emax (SFopp a) min)
                        (SFmul prec emax (SFsub prec emax eps one) n),
                  shift)) /\
    (Z.of_N nbins < 2 ^ 31 -> shift = Some (Z.of_N nbins - 1)) /\
    (shift = None <-> Z.of_N nbins mod 2 ^ 32 = 2 ^ 31) /\
    (forall s, shift = Some s ->
       - 2 ^ 31 <= s < 2 ^ 31 /\ (s - (Z.of_N nbins - 1)) mod 2 ^ 32 = 0).
Proof.
  intros n one eps a.
  exists (int32_checked (int32_of_size nbins - 1)).
  split; [|exact (shift_value nbins)].
  unfold set_cut_coeffs. cbn [eqb of_Z half float_epsilon add sub mul div opp binary64].
  destruct (SFeqb min max).
  - destruct right_closed; cbn [bool_to_Z].
    + rewrite one_minus_epsilon. reflexivity.
    + rewrite one_plus_epsilon. reflexivity.
  - destruct right_closed; reflexivity.
Qed.

(** C5, counterexample.  With [nbins = 2^32 + 1], [min = 0], [max = 1]
    and [right_closed] false the shift is [0], not [nbins - 1]. *)
Lemma set_cut_coeffs_shift_wraps :
  snd (set_cut_coeffs (SF_of_Z 0) (SF_of_Z 1) 4294967297 false) = Some 0 /\
  0 <> Z.of_N 4294967297 - 1.
Proof. split; [vm_compute; reflexivity | discriminate]. Qed.

(** With [nbins = 2^31] and [right_closed] false the subtraction
    [INT32_MIN - 1] overflows: the shift has no defined value, and
    neither has any bin id. *)
Example set_cut_coeffs_shift_overflow :
  snd (set_cut_coeffs (SF_of_Z 0) (SF_of_Z 1) 2147483648 false) = None /\
  get_element (make_double column_123 2147483648 false) 0%N = (None, true).
Proof. split; vm_compute; reflexivity. Qed.

Lemma in_int32_true (z : Z) : - 2 ^ 31 <= z < 2 ^ 31 -> in_int32 z = true.
Proof.
  intros [H1 H2]. unfold in_int32.
  apply andb_true_intro. split; [apply Z.leb_le | apply Z.ltb_lt]; assumption.
Qed.

(** **** Conversion to an integer in binary64 *)

(** [SF_floor] is the floor: the largest integer not above the number. *)
Lemma SF_floor_spec (s : bool) (m : positive) (e : Z) (f : Z) :
  SF_floor (S754_finite s m e) = Some f ->
  if 0 <=? e then f = cond_Zopp s (Z.pos m * 2 ^ e)
  else f * 2 ^ (- e) <= cond_Zopp s (Z.pos m) < (f + 1) * 2 ^ (- e).
Proof.
  unfold SF_floor, magnitude. destruct (0 <=? e) eqn:Ee.
  - intros [= <-]. destruct s; simpl; lia.
  - apply Z.leb_gt in Ee.
    assert (Hp : 0 < 2 ^ (- e)) by (apply Z.pow_pos_nonneg; lia).
    pose proof (Z.div_mod (Z.pos m) (2 ^ (- e)) ltac:(lia)) as Hdm.
    pose proof (Z.mod_pos_bound (Z.pos m) (2 ^ (- e)) Hp) as Hb.
    destruct (Z.pos m mod 2 ^ (- e) =? 0) eqn:Er; simpl;
      [apply Z.eqb_eq in Er | apply Z.eqb_neq in Er];
      intros [= <-]; destruct s; simpl; nia.
Qed.

(** [SF_trunc] is the integral part toward zero: it is the floor, except
    on negative numbers with a fractional part, where it is one above
    the floor. *)
Lemma SF_trunc_floor (x : spec_float) (t : Z) :
  SF_trunc x = Some t ->
  exists f, SF_floor x = Some f /\
    t = if SFltb x (S754_zero false) && SF_frac x then f + 1 else f.
Proof.
  destruct x as [s | s | | s m e]; simpl; try discriminate.
  - intros [= <-]. exists 0. split; reflexivity.
  - intros [= <-]. unfold SFltb. simpl.
    destruct (magnitude m e) as [q frac]. simpl.
    destruct s; simpl.
    + destruct frac; simpl; eexists; (split; [reflexivity | lia]).
    + exists q. split; reflexivity.
Qed.

(** C7, as amended (bin id).  At a row where the child yields a valid
    value [v], [get_element] writes [static_cast<int32_t>(a * v + b) +
    shift]: the integral part of [a * v + b] toward zero, plus [shift],
    provided both fit [int32_t].  This is the floor of [a * v + b] plus
    [shift] when [a * v + b] is not negative or has no fractional part;
    for a negative [a * v + b] with a fractional part it is the floor
    plus 1 plus [shift]. *)
Theorem get_element_bin_id (col_ : Column spec_float) (a b : spec_float)
    (shift : Z) (i : N) (v : spec_float) (t : Z) :
  element col_ i = (true, v) ->
  SF_trunc (SFadd prec emax (SFmul prec emax a v) b) = Some t ->
  in_int32 t = true -> in_int32 (t + shift) = true ->
  let x := SFadd prec emax (SFmul prec emax a v) b in
  get_element (Cut_ColumnImpl col_ a b (Some shift)) i = (Some (t + shift), true) /\
  exists f,
    SF_floor x = Some f /\ bin_id_floor x shift = Some (f + shift) /\
    t + shift = if SFltb x (S754_zero false) && SF_frac x
                then f + 1 + shift else f + shift.
Proof.
  intros Hel Ht H1 H2 x. split.
  - cbn [get_element]. unfold Cut_get_element. rewrite Hel. f_equal.
    cbn [mbind option_bind]. unfold bin_id. cbn [trunc add mul binary64].
    rewrite Ht. simpl.
    unfold int32_checked. rewrite H1. simpl. rewrite H2. reflexivity.
  - destruct (SF_trunc_floor x t Ht) as (f & Hf & Et). exists f.
    split; [exact Hf|]. split.
    + unfold bin_id_floor. rewrite Hf. reflexivity.
    + rewrite Et. destruct (SFltb x (S754_zero false) && SF_frac x); lia.
Qed.

Lemma get_element_bin_id_witness :
  let b := binary_normalize prec emax (-5) (-1) false in
  let x := SFadd prec emax (SFmul prec emax (SF_of_Z 1) (SF_of_Z 1)) b in
  get_element (Cut_ColumnImpl column_123 (SF_of_Z 1) b (Some 3)) 0%N
  = (Some (-1 + 3), true) /\
  exists f,
    SF_floor x = Some f /\ bin_id_floor x 3 = Some (f + 3) /\
    -1 + 3 = if SFltb x (S754_zero false) && SF_frac x then f + 1 + 3 else f + 3.
Proof.
  apply (get_element_bin_id column_123 (SF_of_Z 1)
           (binary_normalize prec emax (-5) (-1) false) 3 0%N (SF_of_Z 1) (-1)).
  - reflexivity.
  - vm_compute. reflexivity.
  - reflexivity.
  - reflexivity.
Defined.

(** In the witness above [a * v + b] is [-3/2]: negative with a
    fractional part, floor [-2], integral part [-1]. *)
Example get_element_negative_fraction :
  let x := SFadd prec emax (SFmul prec emax (SF_of_Z 1) (SF_of_Z 1))
                 (binary_normalize prec emax (-5) (-1) false) in
  SFltb x (S754_zero false) && SF_frac x = true /\
  SF_floor x = Some (-2) /\ SF_trunc x = Some (-1).
Proof. vm_compute. repeat split; reflexivity. Qed.

(** C7, counterexample.  For the column [1.0, 2.0, 3.0, NA] cut into 2
    bins with [right_closed] false, the element at row 0 is bin 0, while
    the floor of [a * v + b] plus [shift] is [-1]. *)
Lemma get_element_truncates :
  get_element (make_double column_123 2 false) 0%N = (Some 0, true) /\
  (let '(a, b, shift) := set_cut_coeffs (SF_of_Z 1) (SF_of_Z 3) 2 false in
   shift ≫= bin_id_floor (SFadd prec emax (SFmul prec emax a (SF_of_Z 1)) b))
  = Some (-1).
Proof. split; vm_compute; reflexivity. Qed.

(** C8 (bins outside the range).  The design of the header scales the
    data to [[0; 1 - eps]] before it multiplies by [nbins], which keeps
    every bin id in [[0, nbins)].  The code evaluates [a * value + b]
    with [b = -a * min], each operation rounded to binary64; over a
    narrow range far from zero the two products are large and their
    rounding errors exceed the guard [eps * nbins].  (1) For
    [min = 1700000000], [max = 1700000001], both finite with
    [min < max], 2 bins and [right_closed] true, the value [max] gets
    bin 2, not bin 1.  (2) For the same statistics with [right_closed]
    false, the value [min] gets bin -1.  (3) For [min = 10^15],
    [max = 10^15 + 1], 10 bins and [right_closed] true, the value
    [10^15 + 7/8], strictly between [min] and [max], gets bin 10. *)
Theorem cut_bins_out_of_range :
  let lo := SF_of_Z 1700000000 in
  let hi := SF_of_Z 1700000001 in
  let lo' := SF_of_Z (10 ^ 15) in
  let hi' := SF_of_Z (10 ^ 15 + 1) in
  let v' := binary_normalize prec emax (8 * 10 ^ 15 + 7) (-3) false in
  (SFltb lo hi = true /\
   get_element (make_double (column_between lo hi 1700000001 0) 2 true) 0%N
   = (Some 2, true) /\
   get_element (make_double (column_between lo hi 1700000000 0) 2 false) 0%N
   = (Some (-1), true)) /\
  (SFltb lo' v' = true /\ SFltb v' hi' = true /\
   get_element (make_double (column_between lo' hi' (8 * 10 ^ 15 + 7) (-3)) 10 true)
               0%N
   = (Some 10, true)).
Proof. vm_compute. repeat split; reflexivity. Qed.

(** On a range that is not narrow the boundaries land as the header
    describes, for either orientation of the bins: of the column
    [1.0, 2.0, 3.0, NA] cut into 2 bins with [right_closed] false, the
    minimum gets bin 0 and the maximum bin 1. *)
Example cut_left_closed_boundaries :
  get_element (make_double column_123 2 false) 0%N = (Some 0, true) /\
  get_element (make_double column_123 2 false) 2%N = (Some 1, true).
Proof. split; vm_compute; reflexivity. Qed.

(** Large numbers of bins.  For [min = 0], [max = 1] and [2^24] bins
    with [right_closed] true the guard [eps * nbins] is 2, and the
    maximum gets bin [2^24 - 2].  For [2^32 + 1] bins with [right_closed]
    false the shift is 0, and the value [1/2] gets a negative bin. *)
Example cut_large_nbins :
  get_element (make_double (column_between (SF_of_Z 0) (SF_of_Z 1) 1 0)
                           16777216 true) 0%N
  = (Some 16777214, true) /\
  get_element (make_double (column_between (SF_of_Z 0) (SF_of_Z 1) 1 (-1))
                           4294967297 false) 0%N
  = (Some (-2147483392), true).
Proof. split; vm_compute; reflexivity. Qed.

(** The scenario of the design document: [1.0, 2.0, 3.0, NA] cut into 2
    right-closed bins gives the bins 0, 0, 1 and NA. *)
Example cut_scenario :
  map (get_element (make_double column_123 2 true)) [0%N; 1%N; 2%N; 3%N]
  = [(Some 0, true); (Some 0, true); (Some 1, true); (None, false)].
Proof. vm_compute. reflexivity. Qed.

(** The same bins for the integer column [1, 2, 3] through
    [make<int32_t>]. *)
Example cut_scenario_int :
  map (get_element (make (H0 := Elem_int) column_int 2 true)) [0%N; 1%N; 2%N]
  = [(Some 0, true); (Some 0, true); (Some 1, true)].
Proof. vm_compute. reflexivity. Qed.

Lemma make_degenerate_witness :
  make_double column_NA 4 true = ConstNa_ColumnImpl (nrows column_NA) INT32 /\
  forall i, get_element (make_double column_NA 4 true) i = (None, false).
Proof.
  apply (make_degenerate (H0 := Elem_float) column_NA 4 true).
  left. reflexivity.
Defined.


(** *** Further properties of the factory and the element reader *)

Section MoreGeneric.

Context {D T : Type} `{DoubleOps D} `{Elem D T}.

(** X8 (validity of the result).  Row [i] of the column the factory
    returns is valid exactly when the statistics are valid and not
    infinite, [nbins] is not 0 and row [i] of the source is valid. *)
Theorem make_element_validity (col : Column T) (nbins : N) (right_closed : bool)
    (i : N) :
  snd (get_element (make col nbins right_closed) i)
  = negb (degenerate col nbins) && fst (element col i).
Proof.
  unfold make, degenerate.
  destruct (get_stat col Min) as [min_valid tmin].
  destruct (get_stat col Max) as [max_valid tmax]. simpl.
  destruct (negb min_valid || negb max_valid || _isinf tmin || _isinf tmax
            || (nbins =? 0)%N); simpl; [reflexivity|].
  destruct (set_cut_coeffs (to_double tmin) (to_double tmax) nbins right_closed)
    as [[a b] shift].
  cbn [get_element]. unfold Cut_get_element, cast_inplace. cbn [element].
  destruct (element col i) as [valid v]. reflexivity.
Qed.

End MoreGeneric.

(** **** Binary64: special values *)

Lemma make_double_normal (col : Column spec_float) (min max : spec_float)
    (nbins : N) (right_closed : bool) :
  get_stat col Min = (true, min) -> get_stat col Max = (true, max) ->
  SF_isinf min = false -> SF_isinf max = false -> (0 < nbins)%N ->
  make_double col nbins right_closed
  = let '(a, b, shift) := set_cut_coeffs min max nbins right_closed in
    Cut_ColumnImpl (cast_inplace (H := Elem_float) col FLOAT64) a b shift.
Proof.
  intros Hmin Hmax Imin Imax Hn. unfold make_double, make. rewrite Hmin, Hmax.
  cbn [_isinf Elem_float isinf binary64 negb orb to_double].
  rewrite Imin, Imax.
  replace (nbins =? 0)%N with false by (symmetry; apply N.eqb_neq; lia).
  reflexivity.
Qed.

Lemma get_element_cut_double (col : Column spec_float) (a b : spec_float)
    (shift : option Z) (i : N) (valid : bool) (v : spec_float) :
  element col i = (valid, v) ->
  get_element (Cut_ColumnImpl (cast_inplace (H := Elem_float) col FLOAT64)
                              a b shift) i
  = (shift ≫= bin_id (SFadd prec emax (SFmul prec emax a v) b), valid).
Proof.
  intros Hel. unfold get_element, Cut_get_element, cast_inplace.
  cbn [element]. rewrite Hel. reflexivity.
Qed.

(** Adding a zero does not change the integral part. *)
Lemma SF_trunc_add_zero (s : bool) (b : spec_float) :
  SF_trunc (SFadd prec emax (S754_zero s) b) = SF_trunc b.
Proof. destruct b as [sb | sb | | sb mb eb]; destruct s; try destruct sb; reflexivity. Qed.

Lemma SFmul_zero_finite (v : spec_float) :
  SF_is_finite v = true ->
  exists s, SFmul prec emax (S754_zero false) v = S754_zero s.
Proof. destruct v as [s | s | | s m e]; simpl; try discriminate; eauto. Qed.

(** X10 (one bin when all values are equal).  In binary64, when the
    statistics are valid, not infinite and equal and [nbins] is not 0,
    every valid element with a finite value gets the same bin id: the
    integral part of [b = (0.5 * nbins) * (1 -/+ eps)], whatever the
    value and the row. *)
Theorem cut_degenerate_same_bin (col : Column spec_float) (min max : spec_float)
    (nbins : N) (right_closed : bool) (i : N) (v : spec_float) :
  get_stat col Min = (true, min) -> get_stat col Max = (true, max) ->
  SF_isinf min = false -> SF_isinf max = false -> (0 < nbins)%N ->
  SFeqb min max = true ->
  element col i = (true, v) -> SF_is_finite v = true ->
  get_element (make_double col nbins right_closed) i
  = (bin_id (SFmul prec emax
               (SFmul prec emax (SF_pow2 (-1)) (SF_of_Z (Z.of_N nbins)))
               (if right_closed
                then SFsub prec emax (SF_of_Z 1) (SF_pow2 (-23))
                else SFadd prec emax (SF_of_Z 1) (SF_pow2 (-23)))) 0,
     true).
Proof.
  intros Hmin Hmax Imin Imax Hn Heq Hel Hfin.
  rewrite (make_double_normal _ _ _ _ _ Hmin Hmax Imin Imax Hn).
  unfold set_cut_coeffs.
  cbn [eqb of_Z half float_epsilon add sub mul div opp binary64].
  rewrite Heq.
  rewrite (get_element_cut_double _ _ _ _ _ _ _ Hel). f_equal.
  cbn [mbind option_bind].
  destruct (SFmul_zero_finite v Hfin) as [s Hs].
  change (SF_of_Z 0) with (S754_zero false). rewrite Hs.
  unfold bin_id. cbn [trunc binary64]. rewrite SF_trunc_add_zero.
  destruct right_closed; cbn [bool_to_Z].
  - rewrite one_minus_epsilon. reflexivity.
  - rewrite one_plus_epsilon. reflexivity.
Qed.

Lemma cut_degenerate_same_bin_witness :
  get_element (make_double (column_between (SF_of_Z 7) (SF_of_Z 7) 7 0) 4 true) 0%N
  = (Some 1, true).
Proof.
  rewrite (cut_degenerate_same_bin (column_between (SF_of_Z 7) (SF_of_Z 7) 7 0)
             (SF_of_Z 7) (SF_of_Z 7) 4 true 0%N (SF_of_Z 7));
    try reflexivity.
Defined.

Lemma binary_round_aux_opp (s : bool) (m e : Z) (l : location) :
  binary_round_aux prec emax (negb s) m e l
  = SFopp (binary_round_aux prec emax s m e l).
Proof.
  unfold binary_round_aux.
  destruct (shr_fexp prec emax m e l) as [mrs' e'].
  destruct (shr_fexp prec emax _ e' loc_Exact) as [mrs'' e''].
  destruct (shr_m mrs''); try reflexivity.
  destruct (e'' <=? emax - prec); reflexivity.
Qed.

(** [(-a) * m] is [-(a * m)], bit for bit. *)
Lemma SFmul_opp_l (a m : spec_float) :
  SFmul prec emax (SFopp a) m = SFopp (SFmul prec emax a m).
Proof.
  destruct a as [sa | sa | | sa ma ea]; destruct m as [sm | sm | | sm mm em];
    simpl; try reflexivity;
    try (destruct sa, sm; reflexivity).
  replace (xorb (negb sa) sm) with (negb (xorb sa sm)) by (destruct sa, sm; reflexivity).
  apply binary_round_aux_opp.
Qed.

(** [x + (-x)] is [+0] for every zero and finite [x]. *)
Lemma SFadd_opp_r (x : spec_float) :
  SF_is_finite x = true -> SFadd prec emax x (SFopp x) = S754_zero false.
Proof.
  destruct x as [s | s | | s m e]; simpl; try discriminate; intros _.
  - destruct s; reflexivity.
  - rewrite Z.min_id. unfold shl_align. rewrite Z.sub_diag. cbn [fst].
    replace (cond_Zopp s (Z.pos m) + cond_Zopp (negb s) (Z.pos m)) with 0
      by (destruct s; simpl; lia).
    reflexivity.
Qed.

(** X11 (the minimum lands in bin 0).  In binary64, for right-closed
    bins over statistics that are valid, not infinite and different, an
    element whose value is the minimum gets bin 0, provided the product
    [a * min] did not overflow: [b] is [-(a * min)] bit for bit, so the
    sum is exactly zero. *)
Theorem cut_min_bin_zero (col : Column spec_float) (min max : spec_float)
    (nbins : N) (i : N) :
  get_stat col Min = (true, min) -> get_stat col Max = (true, max) ->
  SF_isinf min = false -> SF_isinf max = false -> (0 < nbins)%N ->
  SFeqb min max = false ->
  element col i = (true, min) ->
  SF_is_finite (SFmul prec emax (fst (fst (set_cut_coeffs min max nbins true))) min)
  = true ->
  get_element (make_double col nbins true) i = (Some 0, true).
Proof.
  intros Hmin Hmax Imin Imax Hn Hne Hel Hfin.
  rewrite (make_double_normal _ _ _ _ _ Hmin Hmax Imin Imax Hn).
  unfold set_cut_coeffs in *.
  cbn [eqb of_Z half float_epsilon add sub mul div opp binary64] in *.
  rewrite Hne in *. cbn [negb fst] in *.
  rewrite (get_element_cut_double _ _ _ _ _ _ _ Hel). f_equal.
  cbn [mbind option_bind].
  rewrite SFmul_opp_l, (SFadd_opp_r _ Hfin). reflexivity.
Qed.

Lemma cut_min_bin_zero_witness :
  get_element (make_double column_123 2 true) 0%N = (Some 0, true).
Proof.
  apply (cut_min_bin_zero column_123 (SF_of_Z 1) (SF_of_Z 3) 2 0%N);
    reflexivity.
Defined.

(** X12 (NaN and infinite values).  In binary64, for all coefficients,
    an element whose value is a NaN or an infinity has no defined bin
    id: [a * value + b] is then a NaN or an infinity, which
    [static_cast<int32_t>] does not convert.  The validity flag is still
    the child's. *)
Theorem get_element_non_finite (col_ : Column spec_float) (a b : spec_float)
    (shift : option Z) (i : N) (valid : bool) (v : spec_float) :
  element col_ i = (valid, v) -> SF_is_finite v = false ->
  get_element (Cut_ColumnImpl col_ a b shift) i = (None, valid).
Proof.
  intros Hel Hv. cbn [get_element]. unfold Cut_get_element. rewrite Hel.
  f_equal. destruct shift as [shift|]; [|reflexivity].
  cbn [mbind option_bind]. unfold bin_id. cbn [trunc add mul binary64].
  destruct v as [sv | sv | | sv mv ev]; try discriminate;
    destruct a as [sa | sa | | sa ma ea]; destruct b as [sb | sb | | sb mb eb];
    simpl; try reflexivity;
    try (destruct (xorb sa sv), sb; reflexivity).
Qed.

Lemma get_element_non_finite_witness :
  get_element (make_double column_123 2 true) 3%N = (None, false).
Proof.
  apply (get_element_non_finite (cast_inplace (H := Elem_float) column_123 FLOAT64)
           _ _ _ 3%N false S754_nan); reflexivity.
Defined.

(** **** Binary64: exact products and the central bin *)

Lemma digits2_pos_size (p : positive) : digits2_pos p = Pos.size p.
Proof. induction p; simpl; congruence. Qed.

Lemma Zdigits2_log2 (z : Z) : 0 < z -> Zdigits2 z = Z.log2 z + 1.
Proof.
  destruct z as [|p|p]; try lia. intros _. simpl.
  rewrite digits2_pos_size. destruct p; simpl; lia.
Qed.

Lemma Zdigits2_mul_pow2 (c j : Z) :
  0 < c -> 0 <= j -> Zdigits2 (c * 2 ^ j) = Zdigits2 c + j.
Proof.
  intros Hc Hj.
  assert (0 < 2 ^ j) by (apply Z.pow_pos_nonneg; lia).
  rewrite !Zdigits2_log2 by nia.
  rewrite Z.log2_mul_pow2 by lia. lia.
Qed.

Lemma Zdigits2_le (c b : Z) : 0 < c -> 0 <= b -> c < 2 ^ b -> Zdigits2 c <= b.
Proof.
  intros Hc Hb Hlt. rewrite Zdigits2_log2 by assumption.
  apply Z.log2_lt_pow2 in Hlt; lia.
Qed.

Lemma Zdigits2_pos (c : Z) : 0 < c -> 0 < Zdigits2 c.
Proof.
  intros Hc. rewrite Zdigits2_log2 by assumption.
  pose proof (Z.log2_nonneg c). lia.
Qed.

Lemma shr_1_double (a : Z) :
  0 < a ->
  shr_1 {| shr_m := 2 * a; shr_r := false; shr_s := false |}
  = {| shr_m := a; shr_r := false; shr_s := false |}.
Proof. destruct a as [|p|p]; try lia. intros _. reflexivity. Qed.

Lemma iter_shr_1_pow2 (p : positive) (a : Z) :
  0 < a ->
  SpecFloat.iter_pos shr_1 p
    {| shr_m := a * 2 ^ Z.pos p; shr_r := false; shr_s := false |}
  = {| shr_m := a; shr_r := false; shr_s := false |}.
Proof.
  revert a. induction p as [p IH | p IH |]; intros a Ha; cbn [SpecFloat.iter_pos].
  - assert (Hp : 0 < 2 ^ Z.pos p) by (apply Z.pow_pos_nonneg; lia).
    replace (a * 2 ^ Z.pos p~1) with (2 * ((a * 2 ^ Z.pos p) * 2 ^ Z.pos p)).
    + rewrite shr_1_double by nia.
      rewrite IH by nia. apply IH. assumption.
    + replace (Z.pos p~1) with (Z.pos p + Z.pos p + 1) by lia.
      rewrite !Z.pow_add_r by lia. change (2 ^ 1) with 2. ring.
  - assert (Hp : 0 < 2 ^ Z.pos p) by (apply Z.pow_pos_nonneg; lia).
    replace (a * 2 ^ Z.pos p~0) with ((a * 2 ^ Z.pos p) * 2 ^ Z.pos p).
    + rewrite IH by nia. apply IH. assumption.
    + replace (Z.pos p~0) with (Z.pos p + Z.pos p) by lia.
      rewrite !Z.pow_add_r by lia. ring.
  - change (2 ^ 1) with 2. rewrite Z.mul_comm. apply shr_1_double. assumption.
Qed.

Lemma shr_pow2 (a e k : Z) :
  0 < a -> 0 <= k ->
  shr {| shr_m := a * 2 ^ k; shr_r := false; shr_s := false |} e k
  = ({| shr_m := a; shr_r := false; shr_s := false |}, e + k).
Proof.
  intros Ha Hk. destruct k as [|p|p]; try lia.
  - simpl. rewrite Z.mul_1_r, Z.add_0_r. reflexivity.
  - unfold shr. rewrite iter_shr_1_pow2 by assumption. reflexivity.
Qed.

Lemma shr_nonpos (mrs : shr_record) (e k : Z) : k <= 0 -> shr mrs e k = (mrs, e).
Proof. intros Hk. destruct k; try lia; reflexivity. Qed.

(** Rounding a number whose significant part [c] fits the precision is
    exact. *)
Lemma binary_round_aux_dyadic (s : bool) (c j e : Z) :
  0 < c < 2 ^ 53 -> 0 <= j -> -1074 <= e + j <= 971 ->
  dyadic (binary_round_aux prec emax s (c * 2 ^ j) e loc_Exact) s c (e + j).
Proof.
  intros [Hc0 Hc] Hj Ht.
  assert (Hd : 0 < Zdigits2 c <= 53).
  { split; [apply Zdigits2_pos; assumption | apply Zdigits2_le; lia]. }
  set (k := fexp prec emax (Zdigits2 (c * 2 ^ j) + e) - e).
  assert (Hk : k = Z.max (Zdigits2 c + j + e - 53) (-1074) - e).
  { subst k. rewrite Zdigits2_mul_pow2 by lia. reflexivity. }
  assert (Hkj : k <= j) by lia.
  unfold binary_round_aux, shr_fexp. fold k. cbn [shr_record_of_loc].
  destruct (Z.le_gt_cases k 0) as [Hk0 | Hk0].
  - rewrite shr_nonpos by assumption. cbn [shr_m loc_of_shr_record round_nearest_even].
    fold k. rewrite shr_nonpos by assumption. cbn [shr_m].
    assert (Hm : 0 < c * 2 ^ j) by (assert (0 < 2 ^ j) by (apply Z.pow_pos_nonneg; lia); nia).
    destruct (c * 2 ^ j) as [|m|m] eqn:Em; try lia.
    replace (e <=? emax - prec) with true by (symmetry; apply Z.leb_le; unfold emax, prec; lia).
    exists m, e. split; [reflexivity|]. split; [lia|].
    replace (e + j - e) with j by lia. symmetry. exact Em.
  - replace (c * 2 ^ j) with ((c * 2 ^ (j - k)) * 2 ^ k).
    2:{ rewrite <- Z.mul_assoc, <- Z.pow_add_r by lia. do 2 f_equal. lia. }
    assert (Hm : 0 < c * 2 ^ (j - k))
      by (assert (0 < 2 ^ (j - k)) by (apply Z.pow_pos_nonneg; lia); nia).
    rewrite shr_pow2 by lia.
    cbn [shr_m loc_of_shr_record round_nearest_even shr_record_of_loc].
    rewrite shr_nonpos.
    2:{ rewrite Zdigits2_mul_pow2 by lia. unfold fexp, emin, prec, emax. lia. }
    cbn [shr_m].
    destruct (c * 2 ^ (j - k)) as [|m|m] eqn:Em; try lia.
    replace (e + k <=? emax - prec) with true
      by (symmetry; apply Z.leb_le; unfold emax, prec; lia).
    exists m, (e + k). split; [reflexivity|]. split; [lia|].
    replace (e + j - (e + k)) with (j - k) by lia. symmetry. exact Em.
Qed.

Lemma dyadic_pos (x : spec_float) (s : bool) (c t : Z) : dyadic x s c t -> 0 < c.
Proof.
  intros (m & e & _ & He & Hm).
  assert (0 < 2 ^ (t - e)) by (apply Z.pow_pos_nonneg; lia). nia.
Qed.

(** A product whose significant part fits the precision is exact. *)
Lemma SFmul_dyadic (x y : spec_float) (s1 s2 : bool) (c1 c2 t1 t2 : Z) :
  dyadic x s1 c1 t1 -> dyadic y s2 c2 t2 ->
  c1 * c2 < 2 ^ 53 -> -1074 <= t1 + t2 <= 971 ->
  dyadic (SFmul prec emax x y) (xorb s1 s2) (c1 * c2) (t1 + t2).
Proof.
  intros Hx Hy Hc Ht.
  pose proof (dyadic_pos _ _ _ _ Hx) as Hc1.
  pose proof (dyadic_pos _ _ _ _ Hy) as Hc2.
  destruct Hx as (m1 & e1 & -> & He1 & Hm1).
  destruct Hy as (m2 & e2 & -> & He2 & Hm2).
  cbn [SFmul]. rewrite Pos2Z.inj_mul, Hm1, Hm2.
  replace (c1 * 2 ^ (t1 - e1) * (c2 * 2 ^ (t2 - e2)))
    with ((c1 * c2) * 2 ^ ((t1 - e1) + (t2 - e2)))
    by (rewrite Z.pow_add_r by lia; ring).
  replace (t1 + t2) with ((e1 + e2) + ((t1 - e1) + (t2 - e2))) by lia.
  apply binary_round_aux_dyadic; nia.
Qed.

Lemma pos_iter_xO (p d : positive) : Z.pos (Pos.iter xO p d) = Z.pos p * 2 ^ Z.pos d.
Proof.
  rewrite <- Z.shiftl_mul_pow2 by lia. unfold Z.shiftl.
  apply (Pos.iter_swap_gen _ _ Z.pos xO (Z.mul 2)). reflexivity.
Qed.

(** Integers below [2^53] convert exactly. *)
Lemma SF_of_Z_dyadic (n : Z) : 0 < n < 2 ^ 53 -> dyadic (SF_of_Z n) false n 0.
Proof.
  intros [Hn0 Hn].
  destruct n as [|p|p]; try lia.
  unfold SF_of_Z, binary_normalize, binary_round.
  pose proof (Zdigits2_pos (Z.pos p) ltac:(lia)) as Hd0.
  pose proof (Zdigits2_le (Z.pos p) 53 ltac:(lia) ltac:(lia) Hn) as Hd.
  change (Zdigits2 (Z.pos p)) with (Z.pos (digits2_pos p)) in Hd0, Hd.
  set (d := Z.pos (digits2_pos p)) in *.
  assert (Ef : fexp prec emax (d + 0) = d - 53).
  { unfold fexp, emin, prec, emax. lia. }
  rewrite Ef. unfold shl_align.
  destruct (d - 53 - 0) as [|q|q] eqn:Eq; try lia.
  - pose proof (binary_round_aux_dyadic false (Z.pos p) 0 0) as H.
    change (2 ^ 0) with 1 in H. rewrite Z.mul_1_r in H.
    apply H; lia.
  - rewrite pos_iter_xO.
    pose proof (binary_round_aux_dyadic false (Z.pos p) (Z.pos q) (d - 53)) as H.
    replace (d - 53 + Z.pos q) with 0 in H by lia.
    apply H; lia.
Qed.

(** The integral part of an exactly known number. *)
Lemma SF_trunc_dyadic (x : spec_float) (s : bool) (c t : Z) :
  dyadic x s c t -> t <= 0 ->
  SF_trunc x = Some (cond_Zopp s (c / 2 ^ (- t))).
Proof.
  intros (m & e & -> & He & Hm) Ht. cbn [SF_trunc]. do 2 f_equal.
  unfold magnitude. destruct (0 <=? e) eqn:Ee.
  - apply Z.leb_le in Ee. assert (e = 0) by lia. assert (t = 0) by lia. subst e t.
    cbn [fst]. rewrite Hm. simpl. rewrite Z.div_1_r. lia.
  - apply Z.leb_gt in Ee. cbn [fst]. rewrite Hm.
    replace (- e) with ((- t) + (t - e)) by lia.
    rewrite Z.pow_add_r by lia.
    assert (0 < 2 ^ (t - e)) by (apply Z.pow_pos_nonneg; lia).
    assert (0 < 2 ^ (- t)) by (apply Z.pow_pos_nonneg; lia).
    apply Z.div_mul_cancel_r; lia.
Qed.

Lemma half_dyadic : dyadic (SF_pow2 (-1)) false 1 (-1).
Proof. exists 4503599627370496%positive, (-53). repeat split. lia. Qed.

Lemma one_minus_eps_dyadic :
  dyadic (SFsub prec emax (SF_of_Z 1) (SF_pow2 (-23))) false (2 ^ 23 - 1) (-23).
Proof. exists 9007198180999168%positive, (-53). repeat split. lia. Qed.

Lemma one_plus_eps_dyadic :
  dyadic (SFadd prec emax (SF_of_Z 1) (SF_pow2 (-23))) false (2 ^ 23 + 1) (-23).
Proof. exists 4503600164241408%positive, (-52). repeat split. lia. Qed.

(** The integral part of [(0.5 * nbins) * (1 -/+ eps)]. *)
Lemma central_bin_value (nbins : N) (right_closed : bool) :
  (0 < nbins)%N -> Z.of_N nbins < 2 ^ 23 ->
  SF_trunc (SFmul prec emax
              (SFmul prec emax (SF_pow2 (-1)) (SF_of_Z (Z.of_N nbins)))
              (if right_closed
               then SFsub prec emax (SF_of_Z 1) (SF_pow2 (-23))
               else SFadd prec emax (SF_of_Z 1) (SF_pow2 (-23))))
  = Some (if right_closed then (Z.of_N nbins - 1) / 2 else Z.of_N nbins / 2).
Proof.
  intros Hn0 Hn. set (n := Z.of_N nbins) in *.
  assert (Hn1 : 0 < n) by (subst n; lia). clearbody n.
  change (2 ^ 23) with 8388608 in *.
  assert (Hh : dyadic (SFmul prec emax (SF_pow2 (-1)) (SF_of_Z n)) false (1 * n) (-1 + 0)).
  { change false with (xorb false false).
    apply SFmul_dyadic; [exact half_dyadic | apply SF_of_Z_dyadic | |];
      change (2 ^ 53) with 9007199254740992; lia. }
  destruct right_closed.
  - assert (Hb : dyadic (SFmul prec emax (SFmul prec emax (SF_pow2 (-1)) (SF_of_Z n))
                           (SFsub prec emax (SF_of_Z 1) (SF_pow2 (-23))))
                        false (1 * n * (2 ^ 23 - 1)) (-1 + 0 + -23)).
    { change false with (xorb false false).
      apply SFmul_dyadic; [exact Hh | exact one_minus_eps_dyadic | |];
        change (2 ^ 53) with 9007199254740992; change (2 ^ 23) with 8388608; lia. }
    rewrite (SF_trunc_dyadic _ _ _ _ Hb) by lia. cbn [cond_Zopp]. f_equal.
    change (2 ^ (- (-1 + 0 + -23))) with 16777216. change (2 ^ 23) with 8388608.
    symmetry. apply Z.div_unique_pos with (r := (n - 1) mod 2 * 8388608 + (8388608 - n)).
    + pose proof (Z.mod_pos_bound (n - 1) 2 ltac:(lia)). lia.
    + pose proof (Z.div_mod (n - 1) 2 ltac:(lia)). lia.
  - assert (Hb : dyadic (SFmul prec emax (SFmul prec emax (SF_pow2 (-1)) (SF_of_Z n))
                           (SFadd prec emax (SF_of_Z 1) (SF_pow2 (-23))))
                        false (1 * n * (2 ^ 23 + 1)) (-1 + 0 + -23)).
    { change false with (xorb false false).
      apply SFmul_dyadic; [exact Hh | exact one_plus_eps_dyadic | |];
        change (2 ^ 53) with 9007199254740992; change (2 ^ 23) with 8388608; lia. }
    rewrite (SF_trunc_dyadic _ _ _ _ Hb) by lia. cbn [cond_Zopp]. f_equal.
    change (2 ^ (- (-1 + 0 + -23))) with 16777216. change (2 ^ 23) with 8388608.
    symmetry. apply Z.div_unique_pos with (r := n mod 2 * 8388608 + n).
    + pose proof (Z.mod_pos_bound n 2 ltac:(lia)). lia.
    + pose proof (Z.div_mod n 2 ltac:(lia)). lia.
Qed.

(** X14 (the central bin).  In binary64, when the statistics are valid,
    not infinite and equal and [0 < nbins < 2^23], every valid element
    with a finite value gets the central bin: [(nbins - 1) / 2] when
    [right_closed] is true and [nbins / 2] when it is false (integer
    division).  The products [0.5 * nbins] and
    [(0.5 * nbins) * (1 -/+ eps)] are exact for these [nbins]. *)
Theorem cut_degenerate_central_bin (col : Column spec_float) (min max : spec_float)
    (nbins : N) (right_closed : bool) (i : N) (v : spec_float) :
  get_stat col Min = (true, min) -> get_stat col Max = (true, max) ->
  SF_isinf min = false -> SF_isinf max = false -> SFeqb min max = true ->
  (0 < nbins)%N -> Z.of_N nbins < 2 ^ 23 ->
  element col i = (true, v) -> SF_is_finite v = true ->
  get_element (make_double col nbins right_closed) i
  = (Some (if right_closed then (Z.of_N nbins - 1) / 2 else Z.of_N nbins / 2),
     true).
Proof.
  intros Hmin Hmax Imin Imax Heq Hn H23 Hel Hfin.
  rewrite (make_double_normal _ _ _ _ _ Hmin Hmax Imin Imax Hn).
  unfold set_cut_coeffs.
  cbn [eqb of_Z half float_epsilon add sub mul div opp binary64].
  rewrite Heq.
  rewrite (get_element_cut_double _ _ _ _ _ _ _ Hel). f_equal.
  cbn [mbind option_bind].
  destruct (SFmul_zero_finite v Hfin) as [s Hs].
  change (SF_of_Z 0) with (S754_zero false). rewrite Hs.
  unfold bin_id. cbn [trunc binary64]. rewrite SF_trunc_add_zero.
  assert (Hb : SF_trunc
                 (SFmul prec emax
                    (SFmul prec emax (SF_pow2 (-1)) (SF_of_Z (Z.of_N nbins)))
                    (SFadd prec emax (SF_of_Z 1)
                       (SFmul prec emax (SF_of_Z (1 - 2 * bool_to_Z right_closed))
                          (SF_pow2 (-23)))))
               = Some (if right_closed then (Z.of_N nbins - 1) / 2
                       else Z.of_N nbins / 2)).
  { rewrite <- (central_bin_value nbins right_closed Hn H23).
    destruct right_closed; cbn [bool_to_Z];
      [rewrite one_minus_epsilon | rewrite one_plus_epsilon]; reflexivity. }
  rewrite Hb. cbn [mbind option_bind].
  set (k := if right_closed then (Z.of_N nbins - 1) / 2 else Z.of_N nbins / 2).
  assert (Hk : 0 <= k < 2 ^ 23).
  { subst k. change (2 ^ 23) with 8388608 in *.
    destruct right_closed.
    - pose proof (Z.div_mod (Z.of_N nbins - 1) 2 ltac:(lia)).
      pose proof (Z.mod_pos_bound (Z.of_N nbins - 1) 2 ltac:(lia)). lia.
    - pose proof (Z.div_mod (Z.of_N nbins) 2 ltac:(lia)).
      pose proof (Z.mod_pos_bound (Z.of_N nbins) 2 ltac:(lia)). lia. }
  change (2 ^ 23) with 8388608 in Hk.
  unfold int32_checked.
  rewrite (in_int32_true k) by (change (2 ^ 31) with 2147483648; lia).
  cbn [mbind option_bind].
  rewrite Z.add_0_r.
  rewrite (in_int32_true k) by (change (2 ^ 31) with 2147483648; lia).
  reflexivity.
Qed.

Lemma cut_degenerate_central_bin_witness :
  get_element (make_double (column_between (SF_of_Z 7) (SF_of_Z 7) 7 0) 5 false) 0%N
  = (Some (Z.of_N 5 / 2), true).
Proof.
  apply (cut_degenerate_central_bin (column_between (SF_of_Z 7) (SF_of_Z 7) 7 0)
           (SF_of_Z 7) (SF_of_Z 7) 5 false 0%N (SF_of_Z 7)); reflexivity.
Defined.

End CutFacts.
